(** * Game of Life challenge: the generation stepper and its neighbour counter

    A shallow embedding of the two JavaScript files of the repository,
    [part_000] (the script with [gameOfLife(grid)]) and
    [evaluate/evaluate.js] (the script with [computeNextGeneration()]).

    - [JS]       : the JavaScript values and array operations the scripts use.
    - [Life]     : the two scripts' functions over array contents, with the
                   module constants [numRows] and [numCols] as section
                   variables.
    - [Part000], [Evaluate] : the two scripts with their own constants,
                   derived from their literal initial grid.
    - [Store]    : [part_000]'s functions over a store of array objects,
                   where aliasing and mutation are visible. *)

From Stdlib Require Import ZArith List Lia.
From stdpp Require Import base tactics option list numbers strings gmap.

Local Open Scope Z_scope.

(** ** JavaScript values, exceptions and arrays *)

Module JS.

Definition loc := positive.

(** The values that occur: [undefined] (also what a hole of an array or a
    missing index reads as), numbers, and references to array objects. *)
Inductive value :=
| VUndefined
| VNumber (n : Z)
| VRef (l : loc).

#[global] Instance value_eq_dec : EqDecision value.
Proof. solve_decision. Defined.

(** The only exception the code can raise: a property read or write on
    [undefined]. *)
Inductive exn := TypeError.

Inductive result (A : Type) :=
| Ok (a : A)
| Throw (e : exn).
Arguments Ok {A} a.
Arguments Throw {A} e.

#[global] Instance result_ret : MRet result := @Ok.
#[global] Instance result_bind : MBind result := fun A B f m =>
  match m with
  | Ok a => f a
  | Throw e => Throw e
  end.

(** [v === 1] *)
Definition strict_eq_1 (v : value) : bool :=
  match v with
  | VNumber n => n =? 1
  | _ => false
  end.

(** [arr[i]] on an array with contents [arr]: [undefined] outside the
    array's indices. *)
Definition index (arr : list value) (i : Z) : value :=
  if i <? 0 then VUndefined else default VUndefined (arr !! Z.to_nat i).

(** [arr[i] = v] for an index [i >= 0]: inside the array the element is
    replaced, outside the array grows to length [i + 1] and the new
    positions before [i] are holes. *)
Definition assign (arr : list value) (i : nat) (v : value) : list value :=
  if decide (i < length arr)%nat then <[i:=v]> arr
  else arr ++ replicate (i - length arr) VUndefined ++ [v].

(** [for (let i = 0; i < n; i++) body] and [xs.forEach(body)] over a
    threaded state: the first exception ends the loop. *)
Fixpoint forEach {S A : Type} (body : S -> A -> result S)
         (xs : list A) (s : S) : result S :=
  match xs with
  | [] => Ok s
  | x :: xs' =>
      match body s x with
      | Ok s' => forEach body xs' s'
      | Throw e => Throw e
      end
  end.

End JS.
Export JS.

(** ** The scripts' functions over array contents *)

(** A grid as the contents of an array of arrays. *)
Abbreviation row := (list value).
Abbreviation grid := (list row).

(** [grid[r][c]]: [grid[r]] is [undefined] outside the outer array, and
    reading a property of [undefined] throws. *)
Definition getCell (g : grid) (r c : Z) : result value :=
  if r <? 0 then Throw TypeError
  else match g !! Z.to_nat r with
       | Some arr => Ok (index arr c)
       | None => Throw TypeError
       end.

(** [nextGrid[r][c] = v] for loop counters [r] and [c]. *)
Definition setCell (g : grid) (r c : nat) (v : value) : result grid :=
  match g !! r with
  | Some arr => Ok (<[r := assign arr c v]> g)
  | None => Throw TypeError
  end.

(** The literal [directions] of both scripts, in their order. *)
Definition directions : list (Z * Z) :=
  [(-1, -1); (-1, 0); (-1, 1);
   (0, -1);           (0, 1);
   (1, -1);  (1, 0);  (1, 1)].

Module Life.
Section Script.

(** The module constants [const numRows = grid.length] and
    [const numCols = grid[0].length], fixed when the script is loaded. *)
Variables numRows numCols : nat.

(** The body of [directions.forEach(([dx, dy]) => ...)]: the four bounds
    tests and the cell test are joined by [&&], so the cell is read only
    when the four tests hold. *)
Definition visit (g : grid) (row col : Z) (liveNeighbors : Z)
           (d : Z * Z) : result Z :=
  let '(dx, dy) := d in
  let newRow := row + dx in
  let newCol := col + dy in
  if (newRow >=? 0) && (newRow <? Z.of_nat numRows) &&
     (newCol >=? 0) && (newCol <? Z.of_nat numCols)
  then match getCell g newRow newCol with
       | Ok v => Ok (if strict_eq_1 v then liveNeighbors + 1 else liveNeighbors)
       | Throw e => Throw e
       end
  else Ok liveNeighbors.

(** [countLiveNeighbors(grid, row, col)] of [part_000]; in [evaluate.js]
    the same body reads the module variable [grid]. *)
Definition countLiveNeighbors (g : grid) (row col : Z) : result Z :=
  forEach (visit g row col) directions 0.

(** The body of the inner loop of [gameOfLife(grid)] in [part_000]. *)
Definition stepCell (g : grid) (row : nat) (nextGrid : grid) (col : nat)
  : result grid :=
  liveNeighbors ← countLiveNeighbors g (Z.of_nat row) (Z.of_nat col);
  cur ← getCell g (Z.of_nat row) (Z.of_nat col);
  if strict_eq_1 cur then
    if (liveNeighbors <? 2) || (liveNeighbors >? 3) then
      setCell nextGrid row col (VNumber 0)
    else if (liveNeighbors =? 2) || (liveNeighbors =? 3) then
      setCell nextGrid row col (VNumber 1)
    else Ok nextGrid
  else
    if liveNeighbors =? 3 then setCell nextGrid row col (VNumber 1)
    else Ok nextGrid.

Definition stepRow (g : grid) (nextGrid : grid) (row : nat) : result grid :=
  forEach (stepCell g row) (seq 0 numCols) nextGrid.

(** [gameOfLife(grid)] of [part_000]. [grid.map(arr => [...arr])] builds
    new arrays with the same contents; on contents it is the identity
    (the objects are told apart in [Store]). *)
Definition gameOfLife (g : grid) : result grid :=
  let nextGrid := map (fun arr => arr) g in
  forEach (stepRow g) (seq 0 numRows) nextGrid.

(** The body of the inner loop of [computeNextGeneration()] in
    [evaluate.js]; [g] is the module variable [grid]. A live cell with two
    or three live neighbours is not written. *)
Definition stepCell_eval (g : grid) (row : nat) (nextGrid : grid) (col : nat)
  : result grid :=
  liveNeighbors ← countLiveNeighbors g (Z.of_nat row) (Z.of_nat col);
  cur ← getCell g (Z.of_nat row) (Z.of_nat col);
  if strict_eq_1 cur then
    if (liveNeighbors <? 2) || (liveNeighbors >? 3) then
      setCell nextGrid row col (VNumber 0)
    else Ok nextGrid
  else
    if liveNeighbors =? 3 then setCell nextGrid row col (VNumber 1)
    else Ok nextGrid.

Definition stepRow_eval (g : grid) (nextGrid : grid) (row : nat) : result grid :=
  forEach (stepCell_eval g row) (seq 0 numCols) nextGrid.

(** The loops of [computeNextGeneration()], up to [grid = nextGrid]. *)
Definition nextGrid_eval (g : grid) : result grid :=
  let nextGrid := map (fun row => row) g in
  forEach (stepRow_eval g) (seq 0 numRows) nextGrid.

(** [createGridDisplay()], as far as the grid is concerned: it reads
    [grid[row][col]] for every [row < numRows] and [col < numCols] and
    writes only to the document. *)
Definition createGridDisplay (g : grid) : result unit :=
  forEach (fun _ row =>
    forEach (fun _ col =>
      _ ← getCell g (Z.of_nat row) (Z.of_nat col); Ok tt)
      (seq 0 numCols) tt)
    (seq 0 numRows) tt.

(** [computeNextGeneration()] of [evaluate.js] as a transition of the
    module variable [grid]: the new value of the variable and how the
    call ended. An exception in the loops leaves the variable as it was. *)
Definition computeNextGeneration_eval (g : grid) : grid * result unit :=
  match nextGrid_eval g with
  | Ok nextGrid => (nextGrid, createGridDisplay nextGrid)
  | Throw e => (g, Throw e)
  end.

(** [computeNextGeneration()] of [part_000]:
    [grid = gameOfLife(grid); createGridDisplay();]. *)
Definition computeNextGeneration (g : grid) : grid * result unit :=
  match gameOfLife g with
  | Ok nextGrid => (nextGrid, createGridDisplay nextGrid)
  | Throw e => (g, Throw e)
  end.

End Script.
End Life.

(** Grids of numbers, as the scripts' literals write them. *)
Definition ofNumbers (rows : list (list Z)) : grid :=
  map (map VNumber) rows.

(** The literal initial grid, the same in both scripts. *)
Definition initialGrid : grid :=
  ofNumbers [[0; 1; 0; 0; 1];
             [0; 1; 0; 0; 1];
             [0; 1; 0; 0; 1];
             [0; 0; 0; 0; 0];
             [1; 1; 1; 0; 0]].

(** [grid[0].length] at load time (the literal has a first row). *)
Definition firstRowLength (g : grid) : nat :=
  match g with
  | r :: _ => length r
  | [] => 0%nat
  end.

Module Part000.
Definition numRows : nat := length initialGrid.
Definition numCols : nat := firstRowLength initialGrid.
Definition countLiveNeighbors := Life.countLiveNeighbors numRows numCols.
Definition gameOfLife := Life.gameOfLife numRows numCols.
Definition computeNextGeneration := Life.computeNextGeneration numRows numCols.
End Part000.

Module Evaluate.
Definition numRows : nat := length initialGrid.
Definition numCols : nat := firstRowLength initialGrid.
Definition countLiveNeighbors := Life.countLiveNeighbors numRows numCols.
Definition computeNextGeneration := Life.computeNextGeneration_eval numRows numCols.
End Evaluate.

(** ** Grids and stores used as examples *)

(** The README's example. *)
Definition blinker : grid := ofNumbers [[0; 1; 0]; [0; 1; 0]; [0; 1; 0]].

Definition blinkerNext : grid := ofNumbers [[0; 0; 0]; [1; 1; 1]; [0; 0; 0]].

(** Six rows of six cells, one live cell in the last row and column. *)
Definition loneCell : grid :=
  ofNumbers [[0; 0; 0; 0; 0; 0];
             [0; 0; 0; 0; 0; 0];
             [0; 0; 0; 0; 0; 0];
             [0; 0; 0; 0; 0; 0];
             [0; 0; 0; 0; 0; 0];
             [0; 0; 0; 0; 0; 1]].

(** Five rows of three cells. *)
Definition narrowGrid : grid :=
  ofNumbers [[0; 0; 1]; [0; 0; 1]; [0; 0; 1]; [0; 0; 0]; [0; 0; 0]].

Definition narrowGridNext : grid :=
  ofNumbers [[0; 0; 0]; [0; 1; 1; 1]; [0; 0; 0]; [0; 0; 0]; [0; 0; 0]].

Definition deadGrid : grid := ofNumbers [[0; 0; 0]; [0; 0; 0]; [0; 0; 0]].

Definition smallGrid : grid := ofNumbers [[0; 0]; [0; 0]].

(** ** [part_000] over a store of array objects *)

Module Store.

(** The store: the contents of every array object. *)
Abbreviation heap := (gmap loc (list value)).

(** A computation reads and updates the store and returns or throws. *)
Definition M (A : Type) : Type := heap -> heap * result A.

Definition ret {A} (a : A) : M A := fun h => (h, Ok a).
Definition bind {A B} (m : M A) (k : A -> M B) : M B := fun h =>
  match m h with
  | (h', Ok a) => k a h'
  | (h', Throw e) => (h', Throw e)
  end.

Notation "x <- m ;; k" := (bind m (fun x => k))
  (at level 100, m at next level, right associativity).

(** A new array object with contents [arr]. *)
Definition alloc (arr : list value) : M value := fun h =>
  let l := fresh (dom h) in (<[l := arr]> h, Ok (VRef l)).

(** [v[i]]: throws on [undefined], is [undefined] on a number. *)
Definition getIndex (v : value) (i : Z) : M value := fun h =>
  match v with
  | VUndefined => (h, Throw TypeError)
  | VNumber _ => (h, Ok VUndefined)
  | VRef l =>
      match h !! l with
      | Some arr => (h, Ok (index arr i))
      | None => (h, Throw TypeError)
      end
  end.

(** [v[i] = w]: throws on [undefined], is ignored on a number (the
    scripts are not in strict mode), updates the array object in place. *)
Definition setIndex (v : value) (i : nat) (w : value) : M unit := fun h =>
  match v with
  | VUndefined => (h, Throw TypeError)
  | VNumber _ => (h, Ok tt)
  | VRef l =>
      match h !! l with
      | Some arr => (<[l := assign arr i w]> h, Ok tt)
      | None => (h, Throw TypeError)
      end
  end.

(** [[...v]]: a new array with the elements of [v]; [undefined] and
    numbers are not iterable. *)
Definition spread (v : value) : M value := fun h =>
  match v with
  | VRef l =>
      match h !! l with
      | Some arr => alloc arr h
      | None => (h, Throw TypeError)
      end
  | _ => (h, Throw TypeError)
  end.

Fixpoint mapAll (f : value -> M value) (xs : list value) : M (list value) :=
  match xs with
  | [] => ret []
  | x :: xs' => y <- f x;; ys <- mapAll f xs';; ret (y :: ys)
  end.

(** [v.map(f)]: [f] on every element in order, the results in a new
    array. The elements are read once: the [f] of the script only creates
    objects. *)
Definition arrayMap (v : value) (f : value -> M value) : M value := fun h =>
  match v with
  | VRef l =>
      match h !! l with
      | Some elems => (ys <- mapAll f elems;; alloc ys) h
      | None => (h, Throw TypeError)
      end
  | _ => (h, Throw TypeError)
  end.

Fixpoint forEachM {S A : Type} (body : S -> A -> M S) (xs : list A) (s : S)
  : M S :=
  match xs with
  | [] => ret s
  | x :: xs' => s' <- body s x;; forEachM body xs' s'
  end.

Section Script.
Variables numRows numCols : nat.

Definition visit (grid : value) (row col : Z) (liveNeighbors : Z)
           (d : Z * Z) : M Z :=
  let '(dx, dy) := d in
  let newRow := row + dx in
  let newCol := col + dy in
  if (newRow >=? 0) && (newRow <? Z.of_nat numRows) &&
     (newCol >=? 0) && (newCol <? Z.of_nat numCols)
  then
    r <- getIndex grid newRow;;
    v <- getIndex r newCol;;
    ret (if strict_eq_1 v then liveNeighbors + 1 else liveNeighbors)
  else ret liveNeighbors.

Definition countLiveNeighbors (grid : value) (row col : Z) : M Z :=
  forEachM (visit grid row col) directions 0.

(** [nextGrid[row][col] = v] *)
Definition putCell (nextGrid : value) (row col : nat) (v : value) : M unit :=
  r <- getIndex nextGrid (Z.of_nat row);;
  setIndex r col v.

Definition stepCell (grid nextGrid : value) (row : nat) (_ : unit)
           (col : nat) : M unit :=
  liveNeighbors <- countLiveNeighbors grid (Z.of_nat row) (Z.of_nat col);;
  r <- getIndex grid (Z.of_nat row);;
  cur <- getIndex r (Z.of_nat col);;
  if strict_eq_1 cur then
    if (liveNeighbors <? 2) || (liveNeighbors >? 3) then
      putCell nextGrid row col (VNumber 0)
    else if (liveNeighbors =? 2) || (liveNeighbors =? 3) then
      putCell nextGrid row col (VNumber 1)
    else ret tt
  else
    if liveNeighbors =? 3 then putCell nextGrid row col (VNumber 1)
    else ret tt.

Definition stepRow (grid nextGrid : value) (_ : unit) (row : nat) : M unit :=
  forEachM (stepCell grid nextGrid row) (seq 0 numCols) tt.

Definition gameOfLife (grid : value) : M value :=
  nextGrid <- arrayMap grid spread;;
  _ <- forEachM (stepRow grid nextGrid) (seq 0 numRows) tt;;
  ret nextGrid.
End Script.

(** The contents of the array a value refers to. *)
Definition contents (h : heap) (v : value) : option (list value) :=
  match v with
  | VRef l => h !! l
  | _ => None
  end.

(** The grid a value stands for in a store: an array of arrays, read row
    by row. *)
Definition snapshot (h : heap) (v : value) : option grid :=
  elems ← contents h v; mapM (contents h) elems.

(** What a caller sees of a call that returns a grid. *)
Definition outcome (hr : heap * result value) : result (option grid) :=
  match hr.2 with
  | Ok v => Ok (snapshot hr.1 v)
  | Throw e => Throw e
  end.

(** A grid literal: a new array object for every row, then one for the
    grid. *)
Fixpoint allocAll (rows : list (list value)) : M (list value) :=
  match rows with
  | [] => ret []
  | arr :: rows' => r <- alloc arr;; rs <- allocAll rows';; ret (r :: rs)
  end.

Definition literal (g : grid) : M value :=
  rs <- allocAll g;; alloc rs.

(** A computation keeps a property of the store, however it ends. *)
Definition preserves {A} (P : heap -> Prop) (m : M A) : Prop :=
  forall h, P h -> P (m h).1.

(** While [gameOfLife] runs its loops on a store that was [h0] at the
    call: the objects of [h0] are as they were, and [nextGrid] is a new
    object [lN] holding references to the new objects [ls]. *)
Definition separate (h0 : heap) (lN : loc) (ls : list loc) (h : heap) : Prop :=
  h0 ⊆ h /\
  h !! lN = Some (VRef <$> ls) /\
  h0 !! lN = None /\
  Forall (fun l => h0 !! l = None /\ l <> lN) ls.

(** ... and, when the objects [ls] are distinct, [nextGrid] has the
    contents [ng]. *)
Definition holds (h0 : heap) (lN : loc) (ls : list loc) (ng : grid)
           (h : heap) : Prop :=
  separate h0 lN ls h /\
  NoDup ls /\
  Forall2 (fun l arr => h !! l = Some arr) ls ng.

(** A store computation on [nextGrid] does what a function on its
    contents does. *)
Definition simulates (h0 : heap) (lN : loc) (ls : list loc)
           (m : M unit) (p : grid -> result grid) : Prop :=
  forall ng h, holds h0 lN ls ng h ->
    match p ng with
    | Ok ng' => exists h', m h = (h', Ok tt) /\ holds h0 lN ls ng' h'
    | Throw e => exists h', m h = (h', Throw e)
    end.

End Store.

(** The store after the script's literal [grid], and the reference to it. *)
Definition loadedStore : gmap loc (list value) :=
  (Store.literal initialGrid ∅).1.

Definition loadedGrid : value :=
  match (Store.literal initialGrid ∅).2 with
  | Ok v => v
  | Throw _ => VUndefined
  end.

(** The store after a second literal with the same contents (the reset
    button's), and the reference to it. *)
Definition resetStore : gmap loc (list value) :=
  (Store.literal initialGrid loadedStore).1.

Definition resetGrid : value :=
  match (Store.literal initialGrid loadedStore).2 with
  | Ok v => v
  | Throw _ => VUndefined
  end.

(** The cells' click listener on the store: [grid[row]] is read for the
    target of the assignment and again for the test, then the row object
    is updated in place. *)
Definition toggleInPlace (grid : value) (row col : nat) : Store.M unit :=
  Store.bind (Store.getIndex grid (Z.of_nat row)) (fun target =>
  Store.bind (Store.getIndex grid (Z.of_nat row)) (fun r =>
  Store.bind (Store.getIndex r (Z.of_nat col)) (fun cur =>
  Store.setIndex target col (VNumber (if strict_eq_1 cur then 0 else 1))))).

(** ** What the specification counts and prescribes *)

(** The eight offsets [{-1,0,1}² \ {(0,0)}]. *)
Definition offsets : list (Z * Z) :=
  filter (fun d => d <> (0, 0))
    (d1 ← [-1; 0; 1]; d2 ← [-1; 0; 1]; [(d1, d2)]).

(** A coordinate within [[0,rows) × [0,cols)]. *)
Definition inBounds (rows cols : nat) (p : Z * Z) : bool :=
  (0 <=? p.1) && (p.1 <? Z.of_nat rows) &&
  (0 <=? p.2) && (p.2 <? Z.of_nat cols).

(** The cell at a coordinate, when there is one. *)
Definition cellAt (g : grid) (p : Z * Z) : option value :=
  if (p.1 <? 0) || (p.2 <? 0) then None
  else arr ← g !! Z.to_nat p.1; arr !! Z.to_nat p.2.

(** A cell is ALIVE when it holds [1]. *)
Definition isAlive (g : grid) (p : Z * Z) : bool :=
  match cellAt g p with
  | Some v => strict_eq_1 v
  | None => false
  end.

(** The number of ALIVE cells among the offset coordinates of [(row, col)]
    that lie within [[0,rows) × [0,cols)]. *)
Definition liveNeighborCount (rows cols : nat) (g : grid) (row col : Z) : Z :=
  Z.of_nat (length (filter (fun p => inBounds rows cols p && isAlive g p)
                      (map (fun d => (row + d.1, col + d.2)) offsets))).

(** The four rules, on ALIVE/DEAD and the count of live neighbours. *)
Definition lifeRule (alive : bool) (liveNeighbors : Z) : bool :=
  if alive then
    if liveNeighbors <? 2 then false
    else if liveNeighbors >? 3 then false
    else true
  else
    if liveNeighbors =? 3 then true else false.

Definition ofBool (b : bool) : value := VNumber (if b then 1 else 0).

(** A rectangular grid of [rows × cols] cells. *)
Definition dims (rows cols : nat) (g : grid) : Prop :=
  length g = rows /\ Forall (fun arr => length arr = cols) g.

(** A grid of [0]s and [1]s. *)
Definition binary (g : grid) : Prop :=
  Forall (Forall (fun v => v = VNumber 0 \/ v = VNumber 1)) g.

Definition allDead (g : grid) : Prop :=
  Forall (Forall (fun v => v = VNumber 0)) g.

(** A corner coordinate of a [rows × cols] grid. *)
Definition isCorner (rows cols : nat) (row col : Z) : Prop :=
  (row = 0 \/ row = Z.of_nat rows - 1) /\ (col = 0 \/ col = Z.of_nat cols - 1).

(** The value [gameOfLife] leaves in a cell it visits, from the cell's old
    value and its count: a value other than [1] that is not born is copied. *)
Definition nextValue (cur : value) (liveNeighbors : Z) : value :=
  if strict_eq_1 cur then
    if (liveNeighbors <? 2) || (liveNeighbors >? 3) then VNumber 0 else VNumber 1
  else
    if liveNeighbors =? 3 then VNumber 1 else cur.

(** The grid whose every cell is [nextValue] of the old cell and its count
    in the old grid. *)
Definition steppedRow (rows cols : nat) (g : grid) (r : nat) (arr : row) : row :=
  imap (fun c cur =>
    nextValue cur (liveNeighborCount rows cols g (Z.of_nat r) (Z.of_nat c)))
    arr.

Definition stepped (rows cols : nat) (g : grid) : grid :=
  imap (steppedRow rows cols g) g.

(** ** The page: the grid's display, the buttons and the timer *)

(** The elements [createGridDisplay()] puts into [gridContainer]: a [div]
    per cell with its classes and the cell its click listener toggles, and
    a [div] per row with its class and its cells. *)
Record cellDiv := CellDiv {
  cellClasses : list string;
  cellClick : nat * nat
}.

Record rowDiv := RowDiv {
  rowClasses : list string;
  rowCells : list cellDiv
}.

(** The module variables [grid], [isRunning] and [intervalId], the interval
    timers the script has running in the browser, and the children of
    [gridContainer]. *)
Record page := Page {
  pageGrid : grid;
  isRunning : bool;
  intervalId : option positive;
  intervals : gset positive;
  gridContainer : list rowDiv
}.

(** What the user and the browser do to the page. *)
Inductive event :=
| ClickNext
| ClickStart
| ClickPause
| ClickReset
| ClickCell (row col : nat)
| Tick (id : positive).

(** [grid[row][col] = grid[row][col] === 1 ? 0 : 1] of the cells' click
    listener. *)
Definition toggle (g : grid) (row col : nat) : result grid :=
  cur ← getCell g (Z.of_nat row) (Z.of_nat col);
  setCell g row col (VNumber (if strict_eq_1 cur then 0 else 1)).

(** [clearInterval(intervalId)]: nothing happens while [intervalId] is
    [undefined] or names no running timer. *)
Definition clearInterval (id : option positive) (timers : gset positive)
  : gset positive :=
  match id with
  | Some i => timers ∖ {[i]}
  | None => timers
  end.

Module Pages.
Section Script.

Variables numRows numCols : nat.

(** The grid literal of the script and of its reset listener. *)
Variable literal : grid.

(** The loops of the script's generation step: [gameOfLife(grid)] in
    [part_000], the body of [computeNextGeneration()] up to
    [grid = nextGrid] in [evaluate.js]. *)
Variable generation : grid -> result grid.

(** One pass of the inner loop of [createGridDisplay()]: the cell's [div]
    with class [cell], then [alive] or [dead] by [grid[row][col] === 1],
    and its click listener. *)
Definition renderCell (g : grid) (row : nat) (cells : list cellDiv) (col : nat)
  : result (list cellDiv) :=
  v ← getCell g (Z.of_nat row) (Z.of_nat col);
  Ok (cells ++ [CellDiv ["cell"; if strict_eq_1 v then "alive" else "dead"]
                        (row, col)]).

(** One pass of the outer loop up to [gridContainer.appendChild(rowDiv)]. *)
Definition renderRow (g : grid) (row : nat) : result rowDiv :=
  cells ← forEach (renderCell g row) (seq 0 numCols) [];
  Ok (RowDiv ["grid-row"] cells).

(** The outer loop: a row whose cells throw is not appended, and the rows
    appended before stay in the container. *)
Fixpoint renderRows (g : grid) (rows : list nat) (container : list rowDiv)
  : list rowDiv * result unit :=
  match rows with
  | [] => (container, Ok tt)
  | row :: rows' =>
      match renderRow g row with
      | Ok r => renderRows g rows' (container ++ [r])
      | Throw e => (container, Throw e)
      end
  end.

(** [createGridDisplay()]: [gridContainer.innerHTML = ''], then the loops. *)
Definition createGridDisplay (g : grid) : list rowDiv * result unit :=
  renderRows g (seq 0 numRows) [].

(** [computeNextGeneration()]: an exception in the loops leaves the module
    variable and the display as they were. *)
Definition computeNextGeneration (s : page) : page * result unit :=
  match generation (pageGrid s) with
  | Ok nextGrid =>
      (Page nextGrid (isRunning s) (intervalId s) (intervals s)
            (createGridDisplay nextGrid).1,
       (createGridDisplay nextGrid).2)
  | Throw e => (s, Throw e)
  end.

(** The start button: [setInterval] gives an id no running timer has. *)
Definition clickStart (s : page) : page * result unit :=
  if isRunning s then (s, Ok tt)
  else
    let id := fresh (intervals s) in
    (Page (pageGrid s) true (Some id) ({[id]} ∪ intervals s) (gridContainer s),
     Ok tt).

(** The pause button. *)
Definition clickPause (s : page) : page * result unit :=
  (Page (pageGrid s) false (intervalId s)
        (clearInterval (intervalId s) (intervals s)) (gridContainer s),
   Ok tt).

(** The reset button. *)
Definition clickReset (s : page) : page * result unit :=
  (Page literal false (intervalId s)
        (clearInterval (intervalId s) (intervals s))
        (createGridDisplay literal).1,
   (createGridDisplay literal).2).

(** A cell of the display has a click listener for [(row, col)]. *)
Definition hasCell (container : list rowDiv) (row col : nat) : bool :=
  existsb (fun r =>
    existsb (fun c => bool_decide (cellClick c = (row, col))) (rowCells r))
    container.

(** A click on the cell [(row, col)] of the display; there is nothing to
    click when the display has no such cell. *)
Definition clickCell (s : page) (row col : nat) : page * result unit :=
  if hasCell (gridContainer s) row col then
    match toggle (pageGrid s) row col with
    | Ok g =>
        (Page g (isRunning s) (intervalId s) (intervals s)
              (createGridDisplay g).1,
         (createGridDisplay g).2)
    | Throw e => (s, Throw e)
    end
  else (s, Ok tt).

(** The browser runs the callback of a running timer; a timer that was
    cleared does not fire. *)
Definition tick (s : page) (id : positive) : page * result unit :=
  if decide (id ∈ intervals s) then computeNextGeneration s else (s, Ok tt).

Definition handle (s : page) (e : event) : page * result unit :=
  match e with
  | ClickNext => computeNextGeneration s
  | ClickStart => clickStart s
  | ClickPause => clickPause s
  | ClickReset => clickReset s
  | ClickCell row col => clickCell s row col
  | Tick id => tick s id
  end.

(** The script from top to bottom: the variables, then the first
    [createGridDisplay()]. *)
Definition load : page * result unit :=
  (Page literal false None ∅ (createGridDisplay literal).1,
   (createGridDisplay literal).2).

(** The page after the script and a sequence of events; an exception ends
    a listener, not the page. *)
Definition run (events : list event) : page :=
  foldl (fun s e => (handle s e).1) load.1 events.

End Script.
End Pages.

(** The cell [div] for a coordinate: [alive] where the grid holds [1]
    there, [dead] where it holds another value or no cell. *)
Definition displayCell (g : grid) (row col : nat) : cellDiv :=
  CellDiv ["cell"; if isAlive g (Z.of_nat row, Z.of_nat col) then "alive" else "dead"]
          (row, col).

(** A display of [rows] row [div]s of [cols] cell [div]s. *)
Definition displayOf (rows cols : nat) (g : grid) : list rowDiv :=
  (fun r => RowDiv ["grid-row"] (displayCell g r <$> seq 0 cols)) <$> seq 0 rows.

(** The flag [isRunning] and the running timers agree: while it is set
    exactly the timer [intervalId] runs, otherwise none. *)
Definition timersAgree (s : page) : Prop :=
  if isRunning s then exists id, intervalId s = Some id /\ intervals s = {[id]}
  else intervals s = ∅.

(** What holds of the page at all times: the module variable holds a
    [0]/[1] grid of the script's dimensions, the display shows it, and the
    timers agree with the flag. *)
Definition pageInvariant (rows cols : nat) (s : page) : Prop :=
  dims rows cols (pageGrid s) /\ binary (pageGrid s) /\
  gridContainer s = displayOf rows cols (pageGrid s) /\
  timersAgree s.

(** Six rows of six cells: a blinker inside the first five rows and
    columns, one live cell outside. *)
Definition wideGrid : grid :=
  ofNumbers [[0; 1; 0; 0; 0; 0];
             [0; 1; 0; 0; 0; 0];
             [0; 1; 0; 0; 0; 0];
             [0; 0; 0; 0; 0; 0];
             [0; 0; 0; 0; 0; 0];
             [0; 0; 0; 0; 0; 1]].

Definition wideGridNext : grid :=
  ofNumbers [[0; 0; 0; 0; 0; 0];
             [1; 1; 1; 0; 0; 0];
             [0; 0; 0; 0; 0; 0];
             [0; 0; 0; 0; 0; 0];
             [0; 0; 0; 0; 0; 0];
             [0; 0; 0; 0; 0; 1]].

(** The two scripts as pages. *)
Module Part000Page.
Definition handle := Pages.handle Part000.numRows Part000.numCols initialGrid
                       Part000.gameOfLife.
Definition load := Pages.load Part000.numRows Part000.numCols initialGrid.
Definition run := Pages.run Part000.numRows Part000.numCols initialGrid
                    Part000.gameOfLife.
End Part000Page.

Module EvaluatePage.
Definition handle := Pages.handle Evaluate.numRows Evaluate.numCols initialGrid
                       (Life.nextGrid_eval Evaluate.numRows Evaluate.numCols).
Definition run := Pages.run Evaluate.numRows Evaluate.numCols initialGrid
                    (Life.nextGrid_eval Evaluate.numRows Evaluate.numCols).
End EvaluatePage.

(** The literal grid with one more live cell, in the last row and column. *)
Definition initialGridFar : grid :=
  ofNumbers [[0; 1; 0; 0; 1];
             [0; 1; 0; 0; 1];
             [0; 1; 0; 0; 1];
             [0; 0; 0; 0; 0];
             [1; 1; 1; 0; 1]].

(** ** Loops *)

Section Loops.
Context {S A : Type}.
Implicit Types (body : S -> A -> result S) (s : S).

Lemma forEach_app body xs ys s :
  forEach body (xs ++ ys) s =
  match forEach body xs s with
  | Ok s' => forEach body ys s'
  | Throw e => Throw e
  end.
Proof.
  revert s. induction xs as [|x xs IH]; intros s; simpl; [done|].
  destruct (body s x); [apply IH | done].
Qed.
End Loops.

(** A counting loop that never throws, with an invariant indexed by the
    counter. *)
Lemma forEach_seq_from {S : Type} (P : nat -> S -> Prop)
      (body : S -> nat -> result S) (n a : nat) (s : S) :
  P a s ->
  (forall k t, (a <= k < a + n)%nat -> P k t ->
     exists t', body t k = Ok t' /\ P (Datatypes.S k) t') ->
  exists s', forEach body (seq a n) s = Ok s' /\ P (a + n)%nat s'.
Proof.
  revert a s. induction n as [|n IH]; intros a s Ha Hstep; simpl.
  - exists s. by rewrite Nat.add_0_r.
  - destruct (Hstep a s) as (t' & -> & Ht'); [lia | done |].
    destruct (IH (Datatypes.S a) t') as (s' & Hs' & HP); [done | |].
    + intros k t Hk. apply Hstep. lia.
    + exists s'. split; [done|]. by replace (a + Datatypes.S n)%nat with (Datatypes.S a + n)%nat by lia.
Qed.

Lemma forEach_seq_inv {S : Type} (P : nat -> S -> Prop)
      (body : S -> nat -> result S) (n : nat) (s : S) :
  P 0%nat s ->
  (forall k t, (k < n)%nat -> P k t ->
     exists t', body t k = Ok t' /\ P (Datatypes.S k) t') ->
  exists s', forEach body (seq 0 n) s = Ok s' /\ P n s'.
Proof.
  intros H0 Hstep.
  destruct (forEach_seq_from P body n 0 s) as (s' & ? & ?); eauto.
  intros k t Hk. apply Hstep. lia.
Qed.

(** Two counting loops whose bodies agree on the states an invariant
    allows end the same way. *)
Lemma forEach_seq_agree_from {S : Type} (P : nat -> S -> Prop)
      (body body' : S -> nat -> result S) (n a : nat) (s : S) :
  P a s ->
  (forall k t, (a <= k < a + n)%nat -> P k t ->
     body t k = body' t k /\
     forall t', body t k = Ok t' -> P (Datatypes.S k) t') ->
  forEach body (seq a n) s = forEach body' (seq a n) s /\
  forall s', forEach body (seq a n) s = Ok s' -> P (a + n)%nat s'.
Proof.
  revert a s. induction n as [|n IH]; intros a s Ha Hstep; simpl.
  - split; [done|]. intros s' [= <-]. by rewrite Nat.add_0_r.
  - destruct (Hstep a s) as [Heq Hnext]; [lia | done |].
    rewrite <- Heq. destruct (body s a) as [t'|e] eqn:Hb; [|done].
    replace (a + Datatypes.S n)%nat with (Datatypes.S a + n)%nat by lia.
    apply IH; [by apply Hnext|].
    intros k t Hk. apply Hstep. lia.
Qed.

(** ** Arrays *)

Lemma index_of_nat (arr : list value) (k : nat) (v : value) :
  arr !! k = Some v -> index arr (Z.of_nat k) = v.
Proof.
  intros H. unfold index.
  destruct (Z.ltb_spec (Z.of_nat k) 0) as [?|_]; [lia|].
  by rewrite Nat2Z.id, H.
Qed.

Lemma getCell_of_nat (g : grid) (r k : nat) (arr : row) (v : value) :
  g !! r = Some arr -> arr !! k = Some v ->
  getCell g (Z.of_nat r) (Z.of_nat k) = Ok v.
Proof.
  intros Hr Hk. unfold getCell.
  destruct (Z.ltb_spec (Z.of_nat r) 0) as [?|_]; [lia|].
  rewrite Nat2Z.id, Hr. f_equal. by apply index_of_nat.
Qed.

Lemma assign_inside (arr : list value) (k : nat) (v : value) :
  (k < length arr)%nat -> assign arr k v = <[k:=v]> arr.
Proof. intros H. unfold assign. by rewrite decide_True. Qed.

Lemma strict_eq_1_true (v : value) : strict_eq_1 v = true -> v = VNumber 1.
Proof.
  destruct v as [|n|l]; simpl; try done.
  intros H%Z.eqb_eq. by subst.
Qed.

Lemma insert_take_drop {A} (new old : list A) (k : nat) (v : A) :
  new !! k = Some v -> (k < length old)%nat ->
  <[k:=v]> (take k new ++ drop k old) = take (S k) new ++ drop (S k) old.
Proof.
  intros Hnew Hold.
  assert (Hlen : length (take k new) = k).
  { rewrite length_take. apply lookup_lt_Some in Hnew. lia. }
  destruct (lookup_lt_is_Some_2 old k Hold) as [x Hx].
  rewrite (drop_S old x k Hx), (take_S_r new k v Hnew).
  rewrite insert_app_r_alt by lia.
  rewrite Hlen, Nat.sub_diag. simpl. by rewrite <- app_assoc.
Qed.

Lemma filter_none {A} (P : A -> Prop) `{forall x, Decision (P x)} (l : list A) :
  Forall (fun x => ~ P x) l -> filter P l = [].
Proof.
  induction 1 as [|x l Hx _ IH]; [done|].
  rewrite filter_cons. by rewrite decide_False.
Qed.

Lemma take_drop_same {A} (new old : list A) (k : nat) (v : A) :
  new !! k = Some v -> old !! k = Some v ->
  take (S k) new ++ drop (S k) old = take k new ++ drop k old.
Proof.
  intros Hnew Hold.
  rewrite (drop_S old v k Hold), (take_S_r new k v Hnew).
  by rewrite <- app_assoc.
Qed.

(** ** The neighbour counter on a grid of the script's dimensions *)

Section Counter.
Variables numRows numCols : nat.
Variable g : grid.
Hypothesis Hdims : dims numRows numCols g.

Lemma getCell_inBounds (p : Z * Z) :
  inBounds numRows numCols p = true ->
  exists v, cellAt g p = Some v /\ getCell g p.1 p.2 = Ok v.
Proof using Hdims.
  destruct Hdims as [Hlen Hrows]. destruct p as [r c]. unfold inBounds. simpl.
  intros H. repeat (apply andb_prop in H as [H ?]).
  assert (0 <= r < Z.of_nat numRows /\ 0 <= c < Z.of_nat numCols) as [Hr Hc] by lia.
  destruct (lookup_lt_is_Some_2 g (Z.to_nat r)) as [arr Harr]; [lia|].
  assert (length arr = numCols) as Hlarr.
  { eapply (proj1 (Forall_lookup _ _) Hrows); eauto. }
  destruct (lookup_lt_is_Some_2 arr (Z.to_nat c)) as [v Hv]; [lia|].
  exists v. unfold cellAt, getCell, index. simpl.
  destruct (Z.ltb_spec r 0); [lia|]. destruct (Z.ltb_spec c 0); [lia|].
  simpl. rewrite Harr. simpl. by rewrite Hv.
Qed.

Lemma visit_counts (row col acc : Z) (d : Z * Z) :
  let p := (row + d.1, col + d.2) in
  Life.visit numRows numCols g row col acc d =
  Ok (if inBounds numRows numCols p && isAlive g p then acc + 1 else acc).
Proof using Hdims.
  destruct d as [dx dy]. simpl. unfold Life.visit.
  rewrite !Z.geb_leb.
  change ((0 <=? row + dx) && (row + dx <? Z.of_nat numRows) &&
          (0 <=? col + dy) && (col + dy <? Z.of_nat numCols))
    with (inBounds numRows numCols (row + dx, col + dy)).
  destruct (inBounds numRows numCols (row + dx, col + dy)) eqn:Hb; [|done].
  destruct (getCell_inBounds _ Hb) as (v & Hcell & Hget).
  simpl in Hget. rewrite Hget. unfold isAlive. by rewrite Hcell.
Qed.

Lemma forEach_visit_counts (row col : Z) (ds : list (Z * Z)) (acc : Z) :
  forEach (Life.visit numRows numCols g row col) ds acc =
  Ok (acc + Z.of_nat (length (filter
        (fun p => inBounds numRows numCols p && isAlive g p)
        (map (fun d => (row + d.1, col + d.2)) ds)))).
Proof using Hdims.
  revert acc. induction ds as [|d ds IH]; intros acc; simpl.
  - f_equal. lia.
  - rewrite visit_counts. simpl. rewrite IH. f_equal.
    rewrite filter_cons. cbv beta.
    destruct (inBounds numRows numCols (row + d.1, col + d.2)
              && isAlive g (row + d.1, col + d.2)); simpl; lia.
Qed.

(** On a grid of the script's dimensions the counter returns, at any
    coordinate, the number of live cells among the in-bounds offsets. *)
Lemma countLiveNeighbors_dims (row col : Z) :
  Life.countLiveNeighbors numRows numCols g row col =
  Ok (liveNeighborCount numRows numCols g row col).
Proof using Hdims.
  unfold Life.countLiveNeighbors, liveNeighborCount.
  change directions with offsets.
  rewrite forEach_visit_counts. f_equal.
Qed.

Lemma liveNeighborCount_range (rows cols : nat) (row col : Z) :
  0 <= liveNeighborCount rows cols g row col <= 8.
Proof.
  unfold liveNeighborCount. split; [lia|].
  match goal with |- context [filter ?P ?l] =>
    pose proof (length_filter P l) as Hle end.
  rewrite length_map in Hle. change (length offsets) with 8%nat in Hle. lia.
Qed.
End Counter.

(** ** The stepper on a grid of the script's dimensions *)

Section Stepper.
Variables numRows numCols : nat.
Variable g : grid.
Hypothesis Hdims : dims numRows numCols g.

Lemma dims_row (r : nat) (arr : row) :
  g !! r = Some arr -> (r < numRows)%nat /\ length arr = numCols.
Proof using Hdims.
  destruct Hdims as [Hlen Hrows]. intros H. split.
  - rewrite <- Hlen. by eapply lookup_lt_Some.
  - by eapply (proj1 (Forall_lookup _ _) Hrows).
Qed.

(** One visit of the inner loop writes [nextValue] into the cell, or
    leaves the copy, which is then [nextValue] already. *)
Lemma stepCell_dims (r k : nat) (arr a : row) (cur : value) (ng : grid) :
  g !! r = Some arr -> arr !! k = Some cur ->
  ng !! r = Some a -> a !! k = Some cur ->
  Life.stepCell numRows numCols g r ng k =
  Ok (<[r := <[k := nextValue cur
                 (liveNeighborCount numRows numCols g (Z.of_nat r) (Z.of_nat k))]> a]> ng).
Proof using Hdims.
  intros Hr Hk Hnr Hnk. unfold Life.stepCell.
  rewrite (countLiveNeighbors_dims _ _ _ Hdims). simpl.
  rewrite (getCell_of_nat _ _ _ _ _ Hr Hk). simpl.
  set (n := liveNeighborCount numRows numCols g (Z.of_nat r) (Z.of_nat k)).
  assert (Hin : (k < length a)%nat) by (by eapply lookup_lt_Some).
  assert (Hset : forall w, setCell ng r k w = Ok (<[r := <[k := w]> a]> ng)).
  { intros w. unfold setCell. rewrite Hnr. by rewrite assign_inside. }
  assert (Hsame : forall w, w = cur -> Ok ng = Ok (<[r := <[k := w]> a]> ng)).
  { intros w ->. f_equal. by rewrite (list_insert_id a k cur), (list_insert_id ng r a). }
  unfold nextValue. destruct (strict_eq_1 cur) eqn:Hcur.
  - destruct ((n <? 2) || (n >? 3)) eqn:Hdie; [apply Hset|].
    destruct ((n =? 2) || (n =? 3)); [apply Hset|].
    apply Hsame. symmetry. by apply strict_eq_1_true.
  - destruct (n =? 3); [apply Hset | by apply Hsame].
Qed.

Lemma stepRow_dims (r : nat) (arr : row) (ng : grid) :
  g !! r = Some arr -> ng !! r = Some arr ->
  Life.stepRow numRows numCols g ng r = Ok (<[r := steppedRow numRows numCols g r arr]> ng).
Proof using Hdims.
  intros Hr Hnr. unfold Life.stepRow.
  destruct (dims_row r arr Hr) as [Hlt Hlen].
  assert (Hrl : (r < length ng)%nat) by (by eapply lookup_lt_Some).
  destruct (forEach_seq_inv
    (fun k t => t = <[r := take k (steppedRow numRows numCols g r arr) ++ drop k arr]> ng)
    (Life.stepCell numRows numCols g r) numCols ng) as (t & Ht & ->).
  - rewrite take_0, drop_0. simpl. by rewrite list_insert_id.
  - intros k t Hk ->.
    destruct (lookup_lt_is_Some_2 arr k) as [cur Hcur]; [lia|].
    eexists. split.
    + apply (stepCell_dims r k arr
               (take k (steppedRow numRows numCols g r arr) ++ drop k arr) cur);
        [done | done | by apply list_lookup_insert_eq |].
      rewrite lookup_app_r; unfold steppedRow;
        rewrite length_take, length_imap; [|lia].
      replace (k - k `min` length arr)%nat with 0%nat by lia.
      by rewrite lookup_drop, Nat.add_0_r.
    + rewrite list_insert_insert_eq. f_equal.
      apply insert_take_drop; [|lia].
      unfold steppedRow. by rewrite list_lookup_imap, Hcur.
  - rewrite Ht. do 2 f_equal.
    rewrite firstn_all2 by (unfold steppedRow; rewrite length_imap; lia).
    rewrite drop_ge by lia. by rewrite app_nil_r.
Qed.

(** On a grid of the script's dimensions [gameOfLife] returns, and
    returns the grid of the new values. *)
Lemma gameOfLife_dims :
  Life.gameOfLife numRows numCols g = Ok (stepped numRows numCols g).
Proof using Hdims.
  unfold Life.gameOfLife. rewrite map_id.
  destruct Hdims as [Hlen _].
  destruct (forEach_seq_inv
    (fun k t => t = take k (stepped numRows numCols g) ++ drop k g)
    (Life.stepRow numRows numCols g) numRows g) as (t & Ht & ->).
  - by rewrite take_0, drop_0.
  - intros k t Hk ->.
    destruct (lookup_lt_is_Some_2 g k) as [arr Harr]; [lia|].
    eexists. split.
    + apply (stepRow_dims k arr); [done|].
      rewrite lookup_app_r; rewrite length_take; unfold stepped;
        rewrite length_imap; [|lia].
      replace (k - k `min` length g)%nat with 0%nat by lia.
      by rewrite lookup_drop, Nat.add_0_r.
    + apply insert_take_drop; [|lia].
      unfold stepped. by rewrite list_lookup_imap, Harr.
  - rewrite Ht. f_equal.
    rewrite firstn_all2 by (unfold stepped; rewrite length_imap; lia).
    rewrite drop_ge by lia. by rewrite app_nil_r.
Qed.
End Stepper.

(** ** What one visit can change, on any grid *)

Lemma assign_lookup_gt (a : row) (c c' : nat) (v : value) :
  (c < c')%nat -> assign a c v !! c' = a !! c'.
Proof.
  intros Hlt. unfold assign. case_decide as Hin.
  - apply list_lookup_insert_ne. lia.
  - rewrite (lookup_ge_None_2 a c') by lia.
    apply lookup_ge_None_2.
    rewrite !length_app, length_replicate. simpl. lia.
Qed.

Lemma assign_same (a : row) (c : nat) (v : value) :
  a !! c = Some v -> assign a c v = a.
Proof.
  intros H. rewrite assign_inside by (by eapply lookup_lt_Some).
  by apply list_insert_id.
Qed.

Lemma setCell_other_row (t t' : grid) (k c : nat) (v : value) (r : nat) :
  setCell t k c v = Ok t' -> r <> k -> t' !! r = t !! r.
Proof.
  unfold setCell. destruct (t !! k) as [a|]; [|done].
  intros [= <-] Hne. by apply list_lookup_insert_ne.
Qed.

Lemma setCell_later_cell (t t' : grid) (k c : nat) (v : value) (c' : nat) :
  setCell t k c v = Ok t' -> (c < c')%nat ->
  (t' !! k ≫= (.!! c')) = (t !! k ≫= (.!! c')).
Proof.
  unfold setCell. destruct (t !! k) as [a|] eqn:Ha; [|done].
  intros [= <-] Hlt.
  rewrite list_lookup_insert_eq by (by eapply lookup_lt_Some).
  simpl. by apply assign_lookup_gt.
Qed.

Lemma setCell_length (t t' : grid) (k c : nat) (v : value) :
  setCell t k c v = Ok t' -> length t' = length t.
Proof.
  unfold setCell. destruct (t !! k) as [a|]; [|done].
  intros [= <-]. apply length_insert.
Qed.

Section Visits.
Variables numRows numCols : nat.
Variable g : grid.

(** A visit returns the grid it was given or the result of one write to
    the visited cell. *)
Lemma stepCell_writes (k c : nat) (t t' : grid) :
  Life.stepCell numRows numCols g k t c = Ok t' ->
  t' = t \/ exists v, setCell t k c v = Ok t'.
Proof.
  unfold Life.stepCell.
  destruct (Life.countLiveNeighbors _ _ _ _ _) as [n|]; [simpl|done].
  destruct (getCell _ _ _) as [cur|]; [simpl|done].
  repeat match goal with
         | |- context [if ?b then _ else _] => destruct b
         end; intros H; first [by (right; eexists) | left; congruence].
Qed.

Lemma stepCell_eval_writes (k c : nat) (t t' : grid) :
  Life.stepCell_eval numRows numCols g k t c = Ok t' ->
  t' = t \/ exists v, setCell t k c v = Ok t'.
Proof.
  unfold Life.stepCell_eval.
  destruct (Life.countLiveNeighbors _ _ _ _ _) as [n|]; [simpl|done].
  destruct (getCell _ _ _) as [cur|]; [simpl|done].
  repeat match goal with
         | |- context [if ?b then _ else _] => destruct b
         end; intros H; first [by (right; eexists) | left; congruence].
Qed.

(** The two scripts' visits agree while the visited cell of [nextGrid]
    still holds the copy of the old cell. *)
Lemma stepCell_agree (k c : nat) (t : grid) :
  (t !! k ≫= (.!! c)) = (g !! k ≫= (.!! c)) ->
  Life.stepCell numRows numCols g k t c =
  Life.stepCell_eval numRows numCols g k t c.
Proof.
  intros Hcopy. unfold Life.stepCell, Life.stepCell_eval.
  destruct (Life.countLiveNeighbors _ _ _ _ _) as [n|]; [simpl|done].
  destruct (getCell g _ _) as [cur|] eqn:Hget; [simpl|done].
  destruct (strict_eq_1 cur) eqn:Hcur; [|done].
  destruct ((n <? 2) || (n >? 3)); [done|].
  destruct ((n =? 2) || (n =? 3)); [|done].
  apply strict_eq_1_true in Hcur as ->.
  unfold getCell in Hget.
  destruct (Z.of_nat k <? 0); [done|].
  rewrite Nat2Z.id in Hget.
  destruct (g !! k) as [arr|] eqn:Hg; [|done].
  injection Hget as Hget. unfold index in Hget.
  destruct (Z.of_nat c <? 0); [done|].
  rewrite Nat2Z.id in Hget.
  destruct (arr !! c) as [v|] eqn:Harr; [|done].
  simpl in Hget, Hcopy. subst v. rewrite Harr in Hcopy.
  unfold setCell. destruct (t !! k) as [a|] eqn:Ht; [|done].
  simpl in Hcopy. rewrite (assign_same _ _ _ Hcopy).
  by rewrite list_insert_id.
Qed.

Lemma stepRow_other_row_from (k : nat) (n a : nat) (t t' : grid) (r : nat) :
  forEach (Life.stepCell numRows numCols g k) (seq a n) t = Ok t' ->
  r <> k -> t' !! r = t !! r.
Proof.
  revert a t. induction n as [|n IH]; intros a t; simpl.
  - by intros [= <-].
  - destruct (Life.stepCell _ _ _ _ _ _) as [t1|] eqn:H1; [|done].
    intros H Hne. rewrite (IH _ _ H Hne).
    destruct (stepCell_writes _ _ _ _ H1) as [->|[v Hv]]; [done|].
    by eapply setCell_other_row.
Qed.

Lemma stepRow_agree (k : nat) (t : grid) :
  t !! k = g !! k ->
  Life.stepRow numRows numCols g t k = Life.stepRow_eval numRows numCols g t k.
Proof.
  intros Hcopy. unfold Life.stepRow, Life.stepRow_eval.
  apply (forEach_seq_agree_from
    (fun c t => forall c', (c <= c')%nat ->
                  (t !! k ≫= (.!! c')) = (g !! k ≫= (.!! c')))).
  - intros c' _. by rewrite Hcopy.
  - intros c u _ Hu. split; [apply stepCell_agree, Hu; lia|].
    intros u' Hstep c' Hc'. rewrite <- (Hu c') by lia.
    destruct (stepCell_writes _ _ _ _ Hstep) as [->|[v Hv]]; [done|].
    eapply setCell_later_cell; [done | lia].
Qed.

(** The loops of [computeNextGeneration()] in [evaluate.js] and
    [gameOfLife(grid)] in [part_000] end the same way on every grid. *)
Lemma nextGrid_eval_gameOfLife :
  Life.nextGrid_eval numRows numCols g = Life.gameOfLife numRows numCols g.
Proof.
  unfold Life.nextGrid_eval, Life.gameOfLife. rewrite map_id. symmetry.
  apply (forEach_seq_agree_from
    (fun k t => forall r, (k <= r)%nat -> t !! r = g !! r)).
  - done.
  - intros k t _ Ht. split; [apply stepRow_agree, Ht; lia|].
    intros t' Hstep r Hr. rewrite <- (Ht r) by lia.
    eapply stepRow_other_row_from; [done | lia].
Qed.
End Visits.

(** ** The store: what a call of [gameOfLife] can change *)

Module StoreFacts.
Import Store.

Lemma preserves_ret {A} (P : heap -> Prop) (a : A) : preserves P (ret a).
Proof. by intros h. Qed.

Lemma preserves_bind {A B} (P : heap -> Prop) (m : M A) (k : A -> M B) :
  preserves P m -> (forall a, preserves P (k a)) -> preserves P (bind m k).
Proof.
  intros Hm Hk h Hh. unfold bind. specialize (Hm h Hh).
  destruct (m h) as [h' [a|e]]; simpl in *; [by apply Hk | done].
Qed.

Lemma preserves_forEachM {S A} (P : heap -> Prop) (body : S -> A -> M S)
      (xs : list A) (s : S) :
  (forall s x, preserves P (body s x)) -> preserves P (forEachM body xs s).
Proof.
  intros Hbody. revert s. induction xs as [|x xs IH]; intros s; simpl.
  - apply preserves_ret.
  - apply preserves_bind; [apply Hbody | apply IH].
Qed.

Lemma getIndex_store (v : value) (i : Z) (h : heap) : (getIndex v i h).1 = h.
Proof.
  unfold getIndex. destruct v as [| |l]; try done. by destruct (h !! l).
Qed.

Lemma preserves_getIndex (P : heap -> Prop) (v : value) (i : Z) :
  preserves P (getIndex v i).
Proof. intros h Hh. by rewrite getIndex_store. Qed.

Section Script.
Variables numRows numCols : nat.

Lemma preserves_countLiveNeighbors (P : heap -> Prop) (grid : value)
      (row col : Z) :
  preserves P (countLiveNeighbors numRows numCols grid row col).
Proof.
  apply preserves_forEachM. intros n [dx dy]. unfold visit.
  destruct (_ && _); [|apply preserves_ret].
  apply preserves_bind; [apply preserves_getIndex|]. intros r.
  apply preserves_bind; [apply preserves_getIndex|]. intros v.
  apply preserves_ret.
Qed.

(** A write through [nextGrid] goes to one of the new objects. *)
Lemma preserves_putCell (h0 : heap) (lN : loc) (ls : list loc)
      (row col : nat) (v : value) :
  preserves (separate h0 lN ls) (putCell (VRef lN) row col v).
Proof.
  intros h (Hsub & HlN & H0N & Hls). unfold putCell, bind, getIndex.
  rewrite HlN. simpl. unfold index.
  destruct (Z.of_nat row <? 0); [done|]. rewrite Nat2Z.id.
  rewrite list_lookup_fmap.
  destruct (ls !! row) as [l|] eqn:Hl; simpl; [|done].
  destruct (h !! l) as [arr|]; simpl; [|done].
  destruct (proj1 (Forall_lookup _ _) Hls row l Hl) as [H0l Hne].
  repeat split; try done.
  - by apply insert_subseteq_r.
  - by rewrite lookup_insert_ne.
Qed.

Lemma preserves_stepCell (h0 : heap) (lN : loc) (ls : list loc)
      (grid : value) (row col : nat) (u : unit) :
  preserves (separate h0 lN ls)
    (stepCell numRows numCols grid (VRef lN) row u col).
Proof.
  unfold stepCell.
  apply preserves_bind; [apply preserves_countLiveNeighbors|]. intros n.
  apply preserves_bind; [apply preserves_getIndex|]. intros r.
  apply preserves_bind; [apply preserves_getIndex|]. intros cur.
  repeat match goal with
         | |- context [if ?b then _ else _] => destruct b
         end; first [apply preserves_putCell | apply preserves_ret].
Qed.

Lemma preserves_loops (h0 : heap) (lN : loc) (ls : list loc) (grid : value) :
  preserves (separate h0 lN ls)
    (forEachM (stepRow numRows numCols grid (VRef lN)) (seq 0 numRows) tt).
Proof.
  apply preserves_forEachM. intros u row. unfold stepRow.
  apply preserves_forEachM. intros u' col. apply preserves_stepCell.
Qed.
End Script.

(** [[...arr]] on every element gives references to new objects. *)
Lemma mapAll_spread_new (elems : list value) (h : heap) :
  h ⊆ (mapAll spread elems h).1 /\
  forall ys, (mapAll spread elems h).2 = Ok ys ->
    exists ls, ys = VRef <$> ls /\
      Forall (fun l => h !! l = None /\ is_Some ((mapAll spread elems h).1 !! l)) ls.
Proof.
  revert h. induction elems as [|e elems IH]; intros h; simpl.
  - split; [done|]. intros ys [= <-]. by exists [].
  - unfold bind at 1 3 5. unfold spread at 1 3 5, alloc.
    destruct e as [| |l]; simpl; try (split; [done|]; intros ys; done).
    destruct (h !! l) as [arr|] eqn:Harr; simpl; [|split; [done|]; intros ys; done].
    set (l' := fresh (dom h)).
    assert (Hfresh : h !! l' = None).
    { apply not_elem_of_dom. apply is_fresh. }
    set (h1 := <[l' := arr]> h).
    destruct (IH h1) as [Hsub Hys].
    unfold bind, ret.
    destruct (mapAll spread elems h1) as [h2 [ys'|e']] eqn:Hrec; simpl in *.
    + split.
      * etrans; [|exact Hsub]. by apply insert_subseteq.
      * intros ys [= <-]. destruct (Hys ys' eq_refl) as (ls & -> & Hls).
        exists (l' :: ls). split; [done|]. constructor.
        -- split; [done|]. exists arr.
           eapply lookup_weaken; [|exact Hsub]. apply lookup_insert_eq.
        -- eapply Forall_impl; [exact Hls|]. intros l0 [Hn Hs]. split; [|done].
           destruct (decide (l0 = l')) as [->|Hne]; [done|].
           unfold h1 in Hn. by rewrite lookup_insert_ne in Hn.
    + split; [|done]. etrans; [|exact Hsub]. by apply insert_subseteq.
Qed.

(** A call of [gameOfLife], on any store and any argument, returning or
    throwing, leaves every array object of the store as it was. *)
Lemma gameOfLife_store (numRows numCols : nat) (grid : value) (h : heap) :
  h ⊆ (gameOfLife numRows numCols grid h).1 /\
  forall v', (gameOfLife numRows numCols grid h).2 = Ok v' ->
    exists lN ls, v' = VRef lN /\
      separate h lN ls (gameOfLife numRows numCols grid h).1.
Proof.
  unfold gameOfLife. unfold bind at 1 3 5. unfold arrayMap.
  destruct grid as [| |lg]; simpl; try done.
  destruct (h !! lg) as [elems|] eqn:Hlg; simpl; [|done].
  unfold bind at 1 3 5.
  destruct (mapAll_spread_new elems h) as [Hsub Hys].
  destruct (mapAll spread elems h) as [h1 [ys|e]] eqn:Hmap; simpl in *; [|done].
  destruct (Hys ys eq_refl) as (ls & -> & Hls).
  unfold alloc. set (lN := fresh (dom h1)).
  assert (HN1 : h1 !! lN = None) by (apply not_elem_of_dom, is_fresh).
  set (h2 := <[lN := VRef <$> ls]> h1).
  assert (Hsep : separate h lN ls h2).
  { repeat split.
    - etrans; [exact Hsub|]. by apply insert_subseteq.
    - apply lookup_insert_eq.
    - destruct (h !! lN) eqn:E; [|done].
      by rewrite (lookup_weaken _ _ _ _ E Hsub) in HN1.
    - eapply Forall_impl; [exact Hls|]. intros l [Hn [a Ha]]. split; [done|].
      intros ->. by rewrite Ha in HN1. }
  pose proof (preserves_loops numRows numCols h lN ls (VRef lg) h2 Hsep) as Hend.
  unfold bind, ret.
  destruct (forEachM _ _ _ h2) as [h3 [u|e]]; simpl in *.
  - split; [apply Hend|]. intros v' [= <-]. by exists lN, ls.
  - split; [apply Hend | done].
Qed.
End StoreFacts.

(** ** The store: a call computes what the function on contents computes *)

Module StoreRefinement.
Import Store.

Lemma bind_run {A B} (m : M A) (k : A -> M B) (h h' : heap) (r : result A) :
  m h = (h', r) ->
  bind m k h = match r with
               | Ok a => k a h'
               | Throw e => (h', Throw e)
               end.
Proof. intros H. unfold bind. by rewrite H. Qed.

Lemma bind_assoc {A B C} (m : M A) (f : A -> M B) (k : B -> M C) (h : heap) :
  bind (bind m f) k h = bind m (fun a => bind (f a) k) h.
Proof. unfold bind. by destruct (m h) as [h' [a|e]]. Qed.

Lemma simulates_forEachM {A} (h0 : heap) (lN : loc) (ls : list loc)
      (body : unit -> A -> M unit) (pbody : grid -> A -> result grid)
      (xs : list A) :
  (forall x, simulates h0 lN ls (body tt x) (fun ng => pbody ng x)) ->
  simulates h0 lN ls (forEachM body xs tt) (forEach pbody xs).
Proof.
  intros Hbody. induction xs as [|x xs IH]; intros ng h Hh; simpl.
  - by exists h.
  - specialize (Hbody x ng h Hh). simpl in Hbody. unfold bind.
    destruct (pbody ng x) as [ng1|e].
    + destruct Hbody as (h1 & -> & Hh1). apply (IH ng1 h1 Hh1).
    + destruct Hbody as (h1 & ->). by exists h1.
Qed.

Lemma simulates_putCell (h0 : heap) (lN : loc) (ls : list loc)
      (row col : nat) (v : value) :
  simulates h0 lN ls (putCell (VRef lN) row col v)
    (fun ng => setCell ng row col v).
Proof.
  intros ng h (Hsep & Hnd & Hrows).
  pose proof Hsep as (Hsub & HlN & H0N & Hls).
  unfold putCell, setCell, bind, getIndex.
  rewrite HlN. simpl. unfold index.
  destruct (Z.ltb_spec (Z.of_nat row) 0) as [?|_]; [lia|]. rewrite Nat2Z.id.
  rewrite list_lookup_fmap.
  destruct (ng !! row) as [arr|] eqn:Hng.
  - destruct (Forall2_lookup_r _ ls ng row arr Hrows Hng) as (l & Hl & Hharr).
    rewrite Hl. simpl. rewrite Hharr.
    destruct (proj1 (Forall_lookup _ _) Hls row l Hl) as [H0l Hne].
    eexists. split; [done|]. repeat split; try done.
    + by apply insert_subseteq_r.
    + by rewrite lookup_insert_ne.
    + apply Forall2_same_length_lookup. split.
      * rewrite length_insert. by eapply Forall2_length.
      * intros i l' arr' Hl' Harr'.
        destruct (decide (i = row)) as [->|Hi].
        -- rewrite Hl in Hl'. injection Hl' as <-.
           rewrite list_lookup_insert_eq in Harr' by (by eapply lookup_lt_Some).
           injection Harr' as <-. apply lookup_insert_eq.
        -- rewrite list_lookup_insert_ne in Harr' by done.
           rewrite lookup_insert_ne.
           ++ exact (Forall2_lookup_lr _ ls ng i l' arr' Hrows Hl' Harr').
           ++ intros <-. apply Hi. exact (NoDup_lookup ls i row l Hnd Hl' Hl).
  - rewrite (lookup_ge_None_2 ls row); simpl.
    + by exists h.
    + rewrite (Forall2_length _ _ _ Hrows). by apply lookup_ge_None.
Qed.

Section Script.
Variables numRows numCols : nat.
Variables (h0 : heap) (lg : loc) (elems : list value) (g : grid).
Hypothesis Hlg : h0 !! lg = Some elems.
Hypothesis Helems : Forall2 (fun e arr => contents h0 e = Some arr) elems g.

(** [grid[i][j]] on the store reads the contents of the argument. *)
Lemma read_cell (h : heap) (i j : Z) :
  h0 ⊆ h ->
  bind (getIndex (VRef lg) i) (fun r => getIndex r j) h = (h, getCell g i j).
Proof using Hlg Helems.
  intros Hsub. unfold bind, getIndex at 1, getCell.
  rewrite (lookup_weaken _ _ _ _ Hlg Hsub). unfold index at 1.
  destruct (i <? 0); [done|].
  destruct (elems !! Z.to_nat i) as [e|] eqn:He; simpl.
  - destruct (Forall2_lookup_l _ elems g _ e Helems He) as (arr & Harr & Hc).
    rewrite Harr. destruct e as [| |l]; simpl in Hc; try done.
    unfold getIndex. by rewrite (lookup_weaken _ _ _ _ Hc Hsub).
  - rewrite (lookup_ge_None_2 g); [done|].
    rewrite <- (Forall2_length _ _ _ Helems). by apply lookup_ge_None.
Qed.

Lemma forEachM_visit (h : heap) (row col : Z) (ds : list (Z * Z)) (acc : Z) :
  h0 ⊆ h ->
  forEachM (visit numRows numCols (VRef lg) row col) ds acc h =
  (h, forEach (Life.visit numRows numCols g row col) ds acc).
Proof using Hlg Helems.
  intros Hsub. revert acc. induction ds as [|[dx dy] ds IH]; intros acc; simpl.
  - done.
  - unfold bind at 1. unfold visit at 1, Life.visit at 1.
    destruct (_ && _).
    + pose proof (read_cell h (row + dx) (col + dy) Hsub) as Hread.
      unfold bind in Hread |- *.
      destruct (getIndex (VRef lg) (row + dx) h) as [h1 [r|e]]; simpl in *.
      * rewrite Hread. simpl.
        destruct (getCell g (row + dx) (col + dy)); [apply IH | done].
      * by injection Hread as -> <-.
    + unfold ret. apply IH.
Qed.

Lemma countLiveNeighbors_contents (h : heap) (row col : Z) :
  h0 ⊆ h ->
  countLiveNeighbors numRows numCols (VRef lg) row col h =
  (h, Life.countLiveNeighbors numRows numCols g row col).
Proof using Hlg Helems. intros Hsub. by apply forEachM_visit. Qed.

Lemma stepCell_run (nextGrid : value) (row col : nat) (h : heap) :
  h0 ⊆ h ->
  stepCell numRows numCols (VRef lg) nextGrid row tt col h =
  match Life.countLiveNeighbors numRows numCols g (Z.of_nat row) (Z.of_nat col) with
  | Throw e => (h, Throw e)
  | Ok n =>
      match getCell g (Z.of_nat row) (Z.of_nat col) with
      | Throw e => (h, Throw e)
      | Ok cur =>
          (if strict_eq_1 cur then
             if (n <? 2) || (n >? 3) then putCell nextGrid row col (VNumber 0)
             else if (n =? 2) || (n =? 3) then putCell nextGrid row col (VNumber 1)
             else ret tt
           else
             if n =? 3 then putCell nextGrid row col (VNumber 1)
             else ret tt) h
      end
  end.
Proof using Hlg Helems.
  intros Hsub. unfold stepCell.
  rewrite (bind_run _ _ _ _ _ (countLiveNeighbors_contents h _ _ Hsub)).
  destruct (Life.countLiveNeighbors _ _ _ _ _) as [n|e]; [|done].
  rewrite <- bind_assoc.
  by rewrite (bind_run _ _ _ _ _ (read_cell h _ _ Hsub)).
Qed.

Lemma simulates_stepCell (lN : loc) (ls : list loc) (row col : nat) :
  simulates h0 lN ls
    (stepCell numRows numCols (VRef lg) (VRef lN) row tt col)
    (fun ng => Life.stepCell numRows numCols g row ng col).
Proof using Hlg Helems.
  intros ng h Hh. pose proof Hh as ((Hsub & _) & _).
  rewrite (stepCell_run _ _ _ _ Hsub). unfold Life.stepCell.
  destruct (Life.countLiveNeighbors _ _ _ _ _) as [n|e]; simpl; [|by exists h].
  destruct (getCell g _ _) as [cur|e]; simpl; [|by exists h].
  repeat match goal with
         | |- context [if ?b then _ else _] => destruct b
         end;
    first [ by apply (simulates_putCell h0 lN ls row col _ ng h)
          | by exists h ].
Qed.

Lemma simulates_loops (lN : loc) (ls : list loc) :
  simulates h0 lN ls
    (forEachM (stepRow numRows numCols (VRef lg) (VRef lN)) (seq 0 numRows) tt)
    (forEach (Life.stepRow numRows numCols g) (seq 0 numRows)).
Proof using Hlg Helems.
  apply simulates_forEachM. intros row.
  unfold stepRow, Life.stepRow.
  apply (simulates_forEachM h0 lN ls
           (stepCell numRows numCols (VRef lg) (VRef lN) row)
           (Life.stepCell numRows numCols g row)).
  intros col. apply simulates_stepCell.
Qed.
End Script.

Lemma snapshot_inv (h : heap) (v : value) (g : grid) :
  snapshot h v = Some g ->
  exists lg elems, v = VRef lg /\ h !! lg = Some elems /\
    Forall2 (fun e arr => contents h e = Some arr) elems g.
Proof.
  unfold snapshot. destruct v as [| |lg]; simpl; try done.
  destruct (h !! lg) as [elems|] eqn:Hlg; simpl; [|done].
  intros H%mapM_Some. by exists lg, elems.
Qed.

Lemma holds_snapshot (h0 : heap) (lN : loc) (ls : list loc) (ng : grid)
      (h : heap) :
  holds h0 lN ls ng h -> snapshot h (VRef lN) = Some ng.
Proof.
  intros ((_ & HlN & _) & _ & Hrows). unfold snapshot. simpl.
  rewrite HlN. simpl. apply mapM_Some. by apply Forall2_fmap_l.
Qed.

(** On the rows of a grid, [[...arr]] on every element gives distinct new
    objects with the rows' contents. *)
Lemma mapAll_spread_copies (hb : heap) (elems : list value) (g : grid) :
  Forall2 (fun e arr => contents hb e = Some arr) elems g ->
  forall h, hb ⊆ h ->
  exists h' ls,
    mapAll spread elems h = (h', Ok (VRef <$> ls)) /\
    h ⊆ h' /\ NoDup ls /\
    Forall (fun l => h !! l = None) ls /\
    Forall2 (fun l arr => h' !! l = Some arr) ls g.
Proof.
  induction 1 as [|e arr elems g He _ IH]; intros h Hsub; simpl.
  - exists h, []. repeat split; try done; constructor.
  - destruct e as [| |l]; simpl in He; try done.
    pose proof (lookup_weaken _ _ _ _ He Hsub) as Hl.
    set (l' := fresh (dom h)).
    assert (Hfresh : h !! l' = None) by (apply not_elem_of_dom, is_fresh).
    assert (Hstep : spread (VRef l) h = (<[l' := arr]> h, Ok (VRef l'))).
    { unfold spread. by rewrite Hl. }
    assert (Hsub1 : h ⊆ <[l' := arr]> h) by (by apply insert_subseteq).
    destruct (IH (<[l' := arr]> h)) as (h' & ls & Hrec & Hsub' & Hnd & Hnew & Hrows).
    { by etrans. }
    exists h', (l' :: ls).
    assert (Hl' : h' !! l' = Some arr).
    { eapply lookup_weaken; [|exact Hsub']. apply lookup_insert_eq. }
    repeat split.
    + rewrite (bind_run _ _ _ _ _ Hstep), (bind_run _ _ _ _ _ Hrec). done.
    + by etrans.
    + constructor; [|done]. intros Hin.
      pose proof (proj1 (Forall_forall _ _) Hnew l' Hin) as Hn.
      cbv beta in Hn. by rewrite lookup_insert_eq in Hn.
    + constructor; [done|].
      eapply Forall_impl; [exact Hnew|]. intros l0 Hn. cbv beta in Hn.
      destruct (h !! l0) eqn:E; [|done].
      by rewrite (lookup_weaken _ _ _ _ E Hsub1) in Hn.
    + by constructor.
Qed.

(** A call on a reference to a grid returns a reference to the grid the
    function on contents returns, and throws when it throws. *)
Lemma gameOfLife_contents (numRows numCols : nat) (h : heap) (v : value)
      (g : grid) :
  snapshot h v = Some g ->
  outcome (gameOfLife numRows numCols v h) =
  match Life.gameOfLife numRows numCols g with
  | Ok g' => Ok (Some g')
  | Throw e => Throw e
  end.
Proof.
  intros (lg & elems & -> & Hlg & Helems)%snapshot_inv.
  destruct (mapAll_spread_copies h elems g Helems h) as
    (h1 & ls & Hmap & Hsub1 & Hnd & Hnew & Hrows); [done|].
  set (lN := fresh (dom h1)).
  assert (HN1 : h1 !! lN = None) by (apply not_elem_of_dom, is_fresh).
  set (h2 := <[lN := VRef <$> ls]> h1).
  assert (Hcopy : arrayMap (VRef lg) spread h = (h2, Ok (VRef lN))).
  { unfold arrayMap. rewrite Hlg. by rewrite (bind_run _ _ _ _ _ Hmap). }
  assert (Hholds : holds h lN ls g h2).
  { repeat split.
    - etrans; [exact Hsub1|]. by apply insert_subseteq.
    - apply lookup_insert_eq.
    - destruct (h !! lN) eqn:E; [|done].
      by rewrite (lookup_weaken _ _ _ _ E Hsub1) in HN1.
    - apply Forall_forall. intros l Hin. split.
      + exact (proj1 (Forall_forall _ _) Hnew l Hin).
      + intros ->. apply list_elem_of_lookup in Hin as [i Hi].
        destruct (Forall2_lookup_l _ ls g i lN Hrows Hi) as (arr & _ & Harr).
        by rewrite Harr in HN1.
    - done.
    - eapply Forall2_impl; [exact Hrows|]. intros l arr Hl. simpl in Hl.
      unfold h2. rewrite lookup_insert_ne; [done|].
      intros <-. by rewrite Hl in HN1. }
  pose proof (simulates_loops numRows numCols h lg elems g Hlg Helems lN ls
                g h2 Hholds) as Hloops.
  unfold gameOfLife, Life.gameOfLife. rewrite map_id.
  rewrite (bind_run _ _ _ _ _ Hcopy).
  destruct (forEach _ _ g) as [g'|e].
  - destruct Hloops as (h3 & Hrun & Hend).
    rewrite (bind_run _ _ _ _ _ Hrun). unfold ret, outcome. simpl.
    by rewrite (holds_snapshot _ _ _ _ _ Hend).
  - destruct Hloops as (h3 & Hrun).
    by rewrite (bind_run _ _ _ _ _ Hrun).
Qed.

Lemma countLiveNeighbors_snapshot (numRows numCols : nat) (h : heap)
      (v : value) (g : grid) (row col : Z) :
  snapshot h v = Some g ->
  countLiveNeighbors numRows numCols v row col h =
  (h, Life.countLiveNeighbors numRows numCols g row col).
Proof.
  intros (lg & elems & -> & Hlg & Helems)%snapshot_inv.
  by apply (countLiveNeighbors_contents numRows numCols h lg elems g).
Qed.
End StoreRefinement.

(** ** The rules, the dimensions and dead grids, when the grid has the
       script's dimensions *)

Lemma nextValue_binary (cur : value) (n : Z) :
  cur = VNumber 0 \/ cur = VNumber 1 ->
  nextValue cur n = ofBool (lifeRule (strict_eq_1 cur) n).
Proof.
  intros [->| ->]; unfold nextValue, lifeRule, ofBool; simpl.
  - by destruct (n =? 3).
  - destruct (n <? 2); simpl; [done|]. by destruct (n >? 3).
Qed.

Lemma nextValue_values (cur : value) (n : Z) :
  cur = VNumber 0 \/ cur = VNumber 1 ->
  nextValue cur n = VNumber 0 \/ nextValue cur n = VNumber 1.
Proof.
  intros H. rewrite (nextValue_binary _ _ H). unfold ofBool.
  destruct (lifeRule _ _); auto.
Qed.

Lemma cellAt_of_nat (g : grid) (r c : nat) :
  cellAt g (Z.of_nat r, Z.of_nat c) = g !! r ≫= (.!! c).
Proof.
  unfold cellAt. simpl.
  destruct (Z.ltb_spec (Z.of_nat r) 0); [lia|].
  destruct (Z.ltb_spec (Z.of_nat c) 0); [lia|].
  simpl. by rewrite !Nat2Z.id.
Qed.

Lemma stepped_lookup (rows cols : nat) (g : grid) (r c : nat) :
  stepped rows cols g !! r ≫= (.!! c) =
  (fun cur => nextValue cur
     (liveNeighborCount rows cols g (Z.of_nat r) (Z.of_nat c)))
    <$> (g !! r ≫= (.!! c)).
Proof.
  unfold stepped, steppedRow. rewrite list_lookup_imap.
  destruct (g !! r) as [arr|]; simpl; [|done].
  by rewrite list_lookup_imap.
Qed.

Lemma stepped_dims (rows cols R C : nat) (g : grid) :
  dims R C g -> dims R C (stepped rows cols g).
Proof.
  intros [Hlen Hrows]. unfold stepped. split.
  - by rewrite length_imap.
  - apply Forall_lookup. intros r arr'. rewrite list_lookup_imap.
    destruct (g !! r) as [arr|] eqn:Hr; simpl; [|done]. intros [= <-].
    unfold steppedRow. rewrite length_imap.
    by eapply (proj1 (Forall_lookup _ _) Hrows).
Qed.

Lemma stepped_binary (rows cols : nat) (g : grid) :
  binary g -> binary (stepped rows cols g).
Proof.
  intros Hbin. apply Forall_lookup. intros r arr'.
  unfold stepped. rewrite list_lookup_imap.
  destruct (g !! r) as [arr|] eqn:Hr; simpl; [|done]. intros [= <-].
  apply Forall_lookup. intros c v. unfold steppedRow. rewrite list_lookup_imap.
  destruct (arr !! c) as [cur|] eqn:Hc; simpl; [|done]. intros [= <-].
  apply nextValue_values.
  pose proof (proj1 (Forall_lookup _ _) Hbin r arr Hr) as Harr.
  exact (proj1 (Forall_lookup _ _) Harr c cur Hc).
Qed.

Lemma stepped_allDead (rows cols : nat) (g : grid) :
  allDead g -> stepped rows cols g = g.
Proof.
  intros Hdead. apply list_eq. intros r. unfold stepped.
  rewrite list_lookup_imap.
  destruct (g !! r) as [arr|] eqn:Hr; simpl; [|done]. f_equal.
  pose proof (proj1 (Forall_lookup _ _) Hdead r arr Hr) as Harr.
  apply list_eq. intros c. unfold steppedRow. rewrite list_lookup_imap.
  destruct (arr !! c) as [cur|] eqn:Hc; simpl; [|done]. f_equal.
  pose proof (proj1 (Forall_lookup _ _) Harr c cur Hc) as Hcur.
  simpl in Hcur. subst cur. unfold nextValue. simpl.
  set (n := liveNeighborCount rows cols g (Z.of_nat r) (Z.of_nat c)).
  assert (Hn : n = 0); [|by rewrite Hn].
  unfold n, liveNeighborCount.
  match goal with |- Z.of_nat (length ?l) = 0 => assert (Hnil : l = []) end;
    [|by rewrite Hnil].
  apply filter_none, Forall_forall. intros [pr pc] _.
  unfold isAlive, cellAt. simpl.
  destruct (inBounds rows cols (pr, pc)); simpl; [|tauto].
  destruct ((pr <? 0) || (pc <? 0)); [tauto|].
  destruct (g !! Z.to_nat pr) as [arr'|] eqn:Hr'; simpl; [|tauto].
  destruct (arr' !! Z.to_nat pc) as [v|] eqn:Hc'; [|tauto].
  pose proof (proj1 (Forall_lookup _ _) Hdead _ arr' Hr') as Harr'.
  pose proof (proj1 (Forall_lookup _ _) Harr' _ v Hc') as Hv.
  simpl in Hv. subst v. simpl. tauto.
Qed.

Section Properties.
Variables numRows numCols : nat.
Variable g : grid.
Hypothesis Hdims : dims numRows numCols g.

(** The rules: on a [0]/[1] grid of the script's dimensions every cell of
    the returned grid is the rule's verdict on the old cell and its count
    in the old grid. *)
Lemma gameOfLife_rules :
  binary g ->
  exists g',
    Life.gameOfLife numRows numCols g = Ok g' /\
    dims numRows numCols g' /\ binary g' /\
    forall r c : nat, (r < numRows)%nat -> (c < numCols)%nat ->
      cellAt g' (Z.of_nat r, Z.of_nat c) =
      Some (ofBool (lifeRule (isAlive g (Z.of_nat r, Z.of_nat c))
              (liveNeighborCount numRows numCols g (Z.of_nat r) (Z.of_nat c)))).
Proof using Hdims.
  intros Hbin. exists (stepped numRows numCols g).
  split; [by apply gameOfLife_dims|].
  split; [by apply stepped_dims|].
  split; [by apply stepped_binary|].
  intros r c Hr Hc. rewrite cellAt_of_nat, stepped_lookup.
  unfold isAlive. rewrite cellAt_of_nat.
  destruct Hdims as [Hlen Hrows].
  destruct (lookup_lt_is_Some_2 g r) as [arr Harr]; [lia|].
  pose proof (proj1 (Forall_lookup _ _) Hrows r arr Harr) as Hla. simpl in Hla.
  destruct (lookup_lt_is_Some_2 arr c) as [cur Hcur]; [lia|].
  rewrite Harr. simpl. rewrite Hcur. simpl. f_equal.
  apply nextValue_binary.
  pose proof (proj1 (Forall_lookup _ _) Hbin r arr Harr) as Hb.
  exact (proj1 (Forall_lookup _ _) Hb c cur Hcur).
Qed.

(** The dimensions are those of the argument. *)
Lemma gameOfLife_same_dims :
  exists g', Life.gameOfLife numRows numCols g = Ok g' /\ dims numRows numCols g'.
Proof using Hdims.
  exists (stepped numRows numCols g).
  split; [by apply gameOfLife_dims | by apply stepped_dims].
Qed.

(** No spontaneous life. *)
Lemma gameOfLife_allDead :
  allDead g -> Life.gameOfLife numRows numCols g = Ok g.
Proof using Hdims.
  intros Hdead. rewrite (gameOfLife_dims _ _ _ Hdims).
  by rewrite stepped_allDead.
Qed.
End Properties.

(** ** The module variable [grid] in the running scripts *)

Lemma createGridDisplay_dims (numRows numCols : nat) (g : grid) :
  dims numRows numCols g -> Life.createGridDisplay numRows numCols g = Ok tt.
Proof.
  intros [Hlen Hrows]. unfold Life.createGridDisplay.
  destruct (forEach_seq_inv (fun _ _ => True)
    (fun (_ : unit) row =>
       forEach (fun (_ : unit) col =>
         _ ← getCell g (Z.of_nat row) (Z.of_nat col); Ok tt)
         (seq 0 numCols) tt) numRows tt) as ([] & Hrun & _); [done| |done].
  intros r [] Hr _.
  destruct (lookup_lt_is_Some_2 g r) as [arr Harr]; [lia|].
  pose proof (proj1 (Forall_lookup _ _) Hrows r arr Harr) as Hla. simpl in Hla.
  destruct (forEach_seq_inv (fun _ _ => True)
    (fun (_ : unit) col => _ ← getCell g (Z.of_nat r) (Z.of_nat col); Ok tt)
    numCols tt) as ([] & Hrun & _); [done| |by exists tt].
  intros c [] Hc _.
  destruct (lookup_lt_is_Some_2 arr c) as [v Hv]; [lia|].
  exists tt. by rewrite (getCell_of_nat _ _ _ _ _ Harr Hv).
Qed.

Section ModuleGrid.
Variables numRows numCols : nat.
Variable g : grid.
Hypothesis Hdims : dims numRows numCols g.

(** While the module variable holds a grid of the script's dimensions, as
    the literal and every later value do, a generation step of either
    script ends without an exception and stores the stepped grid, again of
    the script's dimensions. *)
Lemma computeNextGeneration_dims :
  Life.computeNextGeneration numRows numCols g =
    (stepped numRows numCols g, Ok tt) /\
  Life.computeNextGeneration_eval numRows numCols g =
    (stepped numRows numCols g, Ok tt) /\
  dims numRows numCols (stepped numRows numCols g).
Proof using Hdims.
  pose proof (stepped_dims numRows numCols _ _ g Hdims) as Hnext.
  unfold Life.computeNextGeneration, Life.computeNextGeneration_eval.
  rewrite nextGrid_eval_gameOfLife, (gameOfLife_dims _ _ _ Hdims).
  by rewrite (createGridDisplay_dims _ _ _ Hnext).
Qed.
End ModuleGrid.

Lemma initialGrid_dims : dims Part000.numRows Part000.numCols initialGrid.
Proof. split; [done|]. repeat constructor. Qed.

Lemma forEach_stepCell_length (numRows numCols : nat) (g : grid) (k : nat)
      (m b : nat) (t t' : grid) :
  forEach (Life.stepCell numRows numCols g k) (seq b m) t = Ok t' ->
  length t' = length t.
Proof.
  revert b t. induction m as [|m IH]; intros b t; simpl.
  - by intros [= <-].
  - destruct (Life.stepCell _ _ _ _ _ _) as [t2|] eqn:Hcell; [|done].
    intros H. rewrite (IH _ _ H).
    destruct (stepCell_writes _ _ _ _ _ _ _ Hcell) as [->|[v Hv]]; [done|].
    by eapply setCell_length.
Qed.

Lemma forEach_stepRow_length (numRows numCols : nat) (g : grid)
      (n a : nat) (t t' : grid) :
  forEach (Life.stepRow numRows numCols g) (seq a n) t = Ok t' ->
  length t' = length t.
Proof.
  revert a t. induction n as [|n IH]; intros a t; simpl.
  - by intros [= <-].
  - destruct (Life.stepRow _ _ _ _ _) as [t1|] eqn:Hrow; [|done].
    intros H. rewrite (IH _ _ H).
    by eapply forEach_stepCell_length.
Qed.

(** On any grid and with any constants, a returned grid has as many rows
    as the argument: a write never adds a row. *)
Lemma gameOfLife_same_rows (numRows numCols : nat) (g g' : grid) :
  Life.gameOfLife numRows numCols g = Ok g' -> length g' = length g.
Proof.
  unfold Life.gameOfLife. rewrite map_id. apply forEach_stepRow_length.
Qed.


(** ** Corners *)

Lemma inBounds_false (rows cols : nat) (p : Z * Z) :
  ~ (0 <= p.1 < Z.of_nat rows /\ 0 <= p.2 < Z.of_nat cols) ->
  inBounds rows cols p = false.
Proof. intros H. unfold inBounds. lia. Qed.

Lemma length_filter_cons_le {A} (P : A -> Prop) `{forall x, Decision (P x)}
      (x : A) (l : list A) :
  (length (filter P (x :: l)) <= S (length (filter P l)))%nat.
Proof. rewrite filter_cons. destruct (decide (P x)); simpl; lia. Qed.

Lemma filter_outside (rows cols : nat) (g : grid) (p : Z * Z) (l : list (Z * Z)) :
  ~ (0 <= p.1 < Z.of_nat rows /\ 0 <= p.2 < Z.of_nat cols) ->
  filter (fun p => inBounds rows cols p && isAlive g p) (p :: l) =
  filter (fun p => inBounds rows cols p && isAlive g p) l.
Proof.
  intros H. apply filter_cons_False. rewrite (inBounds_false _ _ _ H). simpl. tauto.
Qed.

(** One offset of a corner: outside the bounds it is dropped, inside it
    adds at most one to the count. *)
Ltac corner_offset :=
  first [ rewrite filter_outside by (simpl; lia)
        | etrans; [apply length_filter_cons_le|]; apply le_n_S ].

(** At a corner of a grid with at least two rows and two columns at most
    three offsets are in bounds, so the count is at most three. *)
Lemma liveNeighborCount_corner (rows cols : nat) (g : grid) (row col : Z) :
  (2 <= rows)%nat -> (2 <= cols)%nat -> isCorner rows cols row col ->
  0 <= liveNeighborCount rows cols g row col <= 3.
Proof.
  intros HR HC [Hrow Hcol]. unfold liveNeighborCount. split; [lia|].
  apply (Nat2Z.inj_le _ 3).
  change offsets with directions. unfold directions. simpl map.
  destruct Hrow as [-> | ->], Hcol as [-> | ->];
    do 8 corner_offset; rewrite filter_nil; simpl; lia.
Qed.

Lemma countLiveNeighbors_corner (numRows numCols : nat) (g : grid) (row col : Z) :
  dims numRows numCols g ->
  (2 <= numRows)%nat -> (2 <= numCols)%nat -> isCorner numRows numCols row col ->
  exists n, Life.countLiveNeighbors numRows numCols g row col = Ok n /\ 0 <= n <= 3.
Proof.
  intros Hdims HR HC Hcorner. eexists. split.
  - by apply countLiveNeighbors_dims.
  - by apply liveNeighborCount_corner.
Qed.

(** ** The store: the argument after a call *)

Lemma contents_weaken (h h' : gmap loc (list value)) (v : value) (arr : list value) :
  h ⊆ h' -> Store.contents h v = Some arr -> Store.contents h' v = Some arr.
Proof.
  intros Hsub. destruct v as [| |l]; simpl; try done.
  intros H. by eapply lookup_weaken.
Qed.

Lemma snapshot_weaken (h h' : gmap loc (list value)) (v : value) (g : grid) :
  h ⊆ h' -> Store.snapshot h v = Some g -> Store.snapshot h' v = Some g.
Proof.
  intros Hsub (lg & elems & -> & Hlg & Helems)%StoreRefinement.snapshot_inv.
  unfold Store.snapshot. simpl. rewrite (lookup_weaken _ _ _ _ Hlg Hsub). simpl.
  apply mapM_Some. eapply Forall2_impl; [exact Helems|].
  intros e arr. by apply contents_weaken.
Qed.

(** ** The README's example with constants of its own size *)

(** With [numRows] and [numCols] both three, as when the script's literal
    grid has three rows of three cells, the blinker steps to the README's
    next state and back. *)
Lemma blinker_with_constants_3 :
  Life.gameOfLife 3 3 blinker = Ok blinkerNext /\
  Life.gameOfLife 3 3 blinkerNext = Ok blinker.
Proof. split; reflexivity. Qed.

(** ** The script's own grid *)

(** On the literal grid, which has the script's dimensions, [gameOfLife]
    returns the next generation. *)
Lemma gameOfLife_initialGrid :
  Part000.gameOfLife initialGrid =
  Ok (ofNumbers [[0; 0; 0; 0; 0];
                 [1; 1; 1; 1; 1];
                 [0; 0; 0; 0; 0];
                 [1; 0; 1; 0; 0];
                 [0; 1; 0; 0; 0]]).
Proof. reflexivity. Qed.

(** ** The properties C1 to C10 *)

(** C1. The stepper of [part_000] does not apply the four rules on every
    rectangular 0/1 grid: its loops run over the script's constants
    (five and five), not over the argument's rows and columns. On six rows
    of six cells with a lone live cell in the last row and column it
    returns the grid as it was: the cell is ALIVE, has no live neighbour,
    and stays ALIVE, where the rules make it DEAD. *)
Theorem gameOfLife_lone_cell_survives :
  dims 6 6 loneCell /\ binary loneCell /\
  isAlive loneCell (5, 5) = true /\
  liveNeighborCount 6 6 loneCell 5 5 = 0 /\
  lifeRule true 0 = false /\
  Part000.gameOfLife loneCell = Ok loneCell.
Proof.
  repeat split; try reflexivity.
  - repeat constructor.
  - repeat (constructor; [repeat (constructor; [auto|])|]); constructor.
Qed.

(** C2. The counter of [part_000] does not return the count on every
    rectangular grid: its bounds are the script's constants. On the 3×3
    blinker at the in-bounds coordinate (2, 1), which has one live
    neighbour, the offset (1, -1) passes the bounds test with row 3 and the
    read of [grid[3][0]] throws. *)
Theorem countLiveNeighbors_blinker_throws :
  dims 3 3 blinker /\ inBounds 3 3 (2, 1) = true /\
  liveNeighborCount 3 3 blinker 2 1 = 1 /\
  Part000.countLiveNeighbors blinker 2 1 = Throw TypeError.
Proof.
  repeat split; try reflexivity. repeat constructor.
Qed.

(** C3. [gameOfLife] of [part_000] does not keep the length of every row:
    on five rows of three cells whose last column holds three live cells it
    visits column 3, outside the rows, finds three live neighbours there
    and writes [1], so the second row of the result has four cells. *)
Theorem gameOfLife_row_grows :
  dims 5 3 narrowGrid /\
  Part000.gameOfLife narrowGrid = Ok narrowGridNext /\
  length <$> narrowGridNext = [3; 4; 3; 3; 3]%nat.
Proof.
  repeat split; try reflexivity. repeat constructor.
Qed.

(** C4. [gameOfLife] of [part_000] applied to the 3×3 blinker does not
    return the README's next state: with the script's constants it throws
    a TypeError (at row 2, reading [grid[3]]). *)
Theorem gameOfLife_blinker_throws :
  Part000.gameOfLife blinker = Throw TypeError.
Proof. reflexivity. Qed.

(** C5. [gameOfLife] of [part_000] applied twice to the 3×3 blinker does
    not return the blinker: the first call throws a TypeError, so there is
    no second call. *)
Theorem gameOfLife_twice_blinker_throws :
  (Part000.gameOfLife blinker ≫= Part000.gameOfLife) = Throw TypeError.
Proof. reflexivity. Qed.

(** C6. [countLiveNeighbors] of [part_000] throws at a corner of a 2×2
    grid: at (1, 1) the offset (1, -1) gives row 2, inside the script's
    constants and outside the grid, and the read of [grid[2][0]] throws. *)
Theorem countLiveNeighbors_corner_throws :
  dims 2 2 smallGrid /\ isCorner 2 2 1 1 /\
  Part000.countLiveNeighbors smallGrid 1 1 = Throw TypeError.
Proof.
  repeat split; try reflexivity; try (repeat constructor); by right.
Qed.

(** C7. A call of [gameOfLife] leaves its argument unchanged: every array
    object of the store at the call is the same after it, whether the call
    returns or throws, so the argument stands for the same grid; and a
    returned grid is a new object whose rows are new objects. *)
Theorem gameOfLife_leaves_argument (numRows numCols : nat)
        (h : gmap loc (list value)) (v : value) (g : grid) :
  Store.snapshot h v = Some g ->
  h ⊆ (Store.gameOfLife numRows numCols v h).1 /\
  Store.snapshot (Store.gameOfLife numRows numCols v h).1 v = Some g /\
  forall v', (Store.gameOfLife numRows numCols v h).2 = Ok v' ->
    exists lN ls, v' = VRef lN /\
      Store.separate h lN ls (Store.gameOfLife numRows numCols v h).1.
Proof.
  intros Hg.
  destruct (StoreFacts.gameOfLife_store numRows numCols v h) as [Hsub Hnew].
  split; [done|]. split; [by eapply snapshot_weaken | done].
Qed.

Lemma gameOfLife_leaves_argument_witness :
  Store.snapshot loadedStore loadedGrid = Some initialGrid /\
  loadedStore ⊆ (Store.gameOfLife 5 5 loadedGrid loadedStore).1 /\
  Store.snapshot (Store.gameOfLife 5 5 loadedGrid loadedStore).1 loadedGrid
  = Some initialGrid /\
  forall v', (Store.gameOfLife 5 5 loadedGrid loadedStore).2 = Ok v' ->
    exists lN ls, v' = VRef lN /\
      Store.separate loadedStore lN ls
        (Store.gameOfLife 5 5 loadedGrid loadedStore).1.
Proof.
  assert (H : Store.snapshot loadedStore loadedGrid = Some initialGrid)
    by (vm_compute; reflexivity).
  split; [exact H|].
  exact (gameOfLife_leaves_argument 5 5 loadedStore loadedGrid initialGrid H).
Defined.

(** C8. [gameOfLife] of [part_000] does not return an all-DEAD grid for
    every all-DEAD grid: on three rows of three dead cells it throws a
    TypeError. *)
Theorem gameOfLife_all_dead_throws :
  dims 3 3 deadGrid /\ allDead deadGrid /\
  Part000.gameOfLife deadGrid = Throw TypeError.
Proof.
  repeat split; try reflexivity; repeat constructor.
Qed.

(** C9. [gameOfLife] and [countLiveNeighbors] depend on the contents of
    their arguments only: in any two stores, on any two references that
    stand for the same grid (and at the same coordinates), the calls end
    the same way, with the same grid or the same count; a call made after
    an earlier call ends as the earlier one did; the counter leaves the
    store as it was. *)
Theorem calls_depend_on_contents_only (numRows numCols : nat)
        (h1 h2 : gmap loc (list value)) (v1 v2 : value) (g : grid)
        (row col : Z) :
  Store.snapshot h1 v1 = Some g ->
  Store.snapshot h2 v2 = Some g ->
  Store.outcome (Store.gameOfLife numRows numCols v1 h1) =
  Store.outcome (Store.gameOfLife numRows numCols v2 h2) /\
  (Store.countLiveNeighbors numRows numCols v1 row col h1).2 =
  (Store.countLiveNeighbors numRows numCols v2 row col h2).2 /\
  Store.outcome (Store.gameOfLife numRows numCols v1
                   (Store.gameOfLife numRows numCols v1 h1).1) =
  Store.outcome (Store.gameOfLife numRows numCols v1 h1) /\
  (Store.countLiveNeighbors numRows numCols v1 row col h1).1 = h1.
Proof.
  intros H1 H2.
  rewrite !(StoreRefinement.countLiveNeighbors_snapshot _ _ _ _ g) by done.
  rewrite (StoreRefinement.gameOfLife_contents _ _ h1 v1 g H1).
  rewrite (StoreRefinement.gameOfLife_contents _ _ h2 v2 g H2).
  repeat split.
  apply StoreRefinement.gameOfLife_contents.
  eapply snapshot_weaken; [apply StoreFacts.gameOfLife_store | done].
Qed.

Lemma calls_depend_on_contents_only_witness :
  Store.snapshot loadedStore loadedGrid = Some initialGrid /\
  Store.snapshot resetStore resetGrid = Some initialGrid /\
  loadedGrid <> resetGrid /\
  Store.outcome (Store.gameOfLife 5 5 loadedGrid loadedStore) =
  Store.outcome (Store.gameOfLife 5 5 resetGrid resetStore) /\
  (Store.countLiveNeighbors 5 5 loadedGrid 1 1 loadedStore).2 =
  (Store.countLiveNeighbors 5 5 resetGrid 1 1 resetStore).2 /\
  Store.outcome (Store.gameOfLife 5 5 loadedGrid
                   (Store.gameOfLife 5 5 loadedGrid loadedStore).1) =
  Store.outcome (Store.gameOfLife 5 5 loadedGrid loadedStore) /\
  (Store.countLiveNeighbors 5 5 loadedGrid 1 1 loadedStore).1 = loadedStore.
Proof.
  assert (H1 : Store.snapshot loadedStore loadedGrid = Some initialGrid)
    by (vm_compute; reflexivity).
  assert (H2 : Store.snapshot resetStore resetGrid = Some initialGrid)
    by (vm_compute; reflexivity).
  split; [exact H1|]. split; [exact H2|]. split; [by vm_compute|].
  exact (calls_depend_on_contents_only 5 5 loadedStore resetStore
           loadedGrid resetGrid initialGrid 1 1 H1 H2).
Defined.

(** C10. The two scripts compute the same transition: from any current
    grid, the new value of [evaluate.js]'s module variable [grid] after
    [computeNextGeneration()] is the grid [part_000]'s [gameOfLife(grid)]
    returns, and the variable keeps its value exactly when [gameOfLife]
    throws. *)
Theorem computeNextGeneration_agrees_with_gameOfLife (g : grid) :
  (Evaluate.computeNextGeneration g).1 =
  match Part000.gameOfLife g with
  | Ok nextGrid => nextGrid
  | Throw _ => g
  end.
Proof.
  unfold Evaluate.computeNextGeneration, Life.computeNextGeneration_eval,
    Part000.gameOfLife.
  rewrite nextGrid_eval_gameOfLife.
  change Evaluate.numRows with Part000.numRows.
  change Evaluate.numCols with Part000.numCols.
  by destruct (Life.gameOfLife _ _ g).
Qed.

(** ** The functions on any grid: when they throw, what they leave alone *)

Lemma getCell_row_present (g : grid) (r : nat) (c : Z) :
  (r < length g)%nat -> exists v, getCell g (Z.of_nat r) c = Ok v.
Proof.
  intros Hr. unfold getCell.
  destruct (Z.ltb_spec (Z.of_nat r) 0); [lia|]. rewrite Nat2Z.id.
  destruct (lookup_lt_is_Some_2 g r Hr) as [arr ->]. by eexists.
Qed.

Lemma getCell_row_missing (g : grid) (r : nat) (c : Z) :
  (length g <= r)%nat -> getCell g (Z.of_nat r) c = Throw TypeError.
Proof.
  intros Hr. unfold getCell.
  destruct (Z.ltb_spec (Z.of_nat r) 0); [done|]. rewrite Nat2Z.id.
  by rewrite (lookup_ge_None_2 g r Hr).
Qed.

Lemma only_TypeError {A} (r : result A) :
  (exists a, r = Ok a) \/ r = Throw TypeError.
Proof. destruct r as [a|[]]; eauto. Qed.

Section AnyGrid.
Variables numRows numCols : nat.
Variable g : grid.

Lemma visit_range (row col acc n : Z) (d : Z * Z) :
  Life.visit numRows numCols g row col acc d = Ok n -> acc <= n <= acc + 1.
Proof.
  destruct d as [dx dy]. unfold Life.visit.
  destruct (_ && _); [|intros [= <-]; lia].
  destruct (getCell _ _ _) as [v|]; [|done].
  destruct (strict_eq_1 v); intros [= <-]; lia.
Qed.

Lemma forEach_visit_range (row col : Z) (ds : list (Z * Z)) (acc n : Z) :
  forEach (Life.visit numRows numCols g row col) ds acc = Ok n ->
  acc <= n <= acc + Z.of_nat (length ds).
Proof.
  revert acc. induction ds as [|d ds IH]; intros acc; simpl.
  - intros [= <-]. lia.
  - destruct (Life.visit _ _ _ _ _ _ _) as [m|] eqn:Hm; [|done].
    intros H. apply IH in H. apply visit_range in Hm. lia.
Qed.

Lemma visit_returns (row col acc : Z) (d : Z * Z) :
  (numRows <= length g)%nat ->
  exists n, Life.visit numRows numCols g row col acc d = Ok n.
Proof.
  intros Hrows. destruct d as [dx dy]. unfold Life.visit.
  destruct ((row + dx >=? 0) && (row + dx <? Z.of_nat numRows) &&
            (col + dy >=? 0) && (col + dy <? Z.of_nat numCols)) eqn:Hb;
    [|by eexists].
  destruct (getCell_row_present g (Z.to_nat (row + dx)) (col + dy)) as [v Hv];
    [lia|].
  rewrite Z2Nat.id in Hv by lia. rewrite Hv. by eexists.
Qed.

Lemma countLiveNeighbors_returns (row col : Z) :
  (numRows <= length g)%nat ->
  exists n, Life.countLiveNeighbors numRows numCols g row col = Ok n.
Proof.
  intros Hrows. unfold Life.countLiveNeighbors.
  generalize 0 as acc. induction directions as [|d ds IH]; intros acc; simpl.
  - by eexists.
  - destruct (visit_returns row col acc d Hrows) as [m ->]. apply IH.
Qed.

(** One visit of the inner loop keeps every other row, and in its own row
    every cell to the right of the visited one. *)
Lemma stepCell_keeps (k col : nat) (t t' : grid) :
  Life.stepCell numRows numCols g k t col = Ok t' ->
  length t' = length t /\
  (forall r, r <> k -> t' !! r = t !! r) /\
  (forall c', (col < c')%nat -> (t' !! k ≫= (.!! c')) = (t !! k ≫= (.!! c'))).
Proof.
  intros H. destruct (stepCell_writes _ _ _ _ _ _ _ H) as [->|[v Hv]]; [done|].
  split; [by eapply setCell_length|]. split.
  - intros r Hr. by eapply setCell_other_row.
  - intros c' Hc'. by eapply setCell_later_cell.
Qed.

Lemma stepCell_returns (k col : nat) (t : grid) :
  (numRows <= length g)%nat -> (k < numRows)%nat -> length t = length g ->
  exists t', Life.stepCell numRows numCols g k t col = Ok t'.
Proof.
  intros Hrows Hk Hlen. unfold Life.stepCell.
  destruct (countLiveNeighbors_returns (Z.of_nat k) (Z.of_nat col) Hrows) as [n ->].
  destruct (getCell_row_present g k (Z.of_nat col)) as [cur ->]; [lia|]. simpl.
  assert (Hset : forall v, exists t', setCell t k col v = Ok t').
  { intros v. unfold setCell.
    destruct (lookup_lt_is_Some_2 t k) as [a ->]; [lia|]. by eexists. }
  repeat match goal with
         | |- context [if ?b then _ else _] => destruct b
         end; first [apply Hset | by eexists].
Qed.

(** [gameOfLife] returns when the argument has [numRows] rows or more, of
    any lengths. *)
Lemma gameOfLife_returns :
  (numRows <= length g)%nat ->
  exists g', Life.gameOfLife numRows numCols g = Ok g'.
Proof.
  intros Hrows. unfold Life.gameOfLife. rewrite map_id.
  destruct (forEach_seq_inv (fun _ t => length t = length g)
              (Life.stepRow numRows numCols g) numRows g) as (g' & Hg' & _);
    [done| |by exists g'].
  intros k t Hk Ht. unfold Life.stepRow.
  destruct (forEach_seq_inv (fun _ t => length t = length g)
              (Life.stepCell numRows numCols g k) numCols t) as (t' & Ht' & Hl);
    [done| |by exists t'].
  intros c u _ Hu.
  destruct (stepCell_returns k c u Hrows Hk Hu) as [u' Hu'].
  exists u'. split; [done|].
  destruct (stepCell_keeps _ _ _ _ Hu') as [-> _]. done.
Qed.

(** Without columns to visit nothing is read or written. *)
Lemma gameOfLife_no_columns :
  numCols = 0%nat -> Life.gameOfLife numRows numCols g = Ok g.
Proof.
  intros Hcols. unfold Life.gameOfLife. rewrite map_id.
  destruct (forEach_seq_inv (fun _ t => t = g)
              (Life.stepRow numRows numCols g) numRows g) as (g' & Hg' & ->);
    [done| |done].
  intros k t _ ->. exists g. split; [|done].
  unfold Life.stepRow. by rewrite Hcols.
Qed.

(** With a column to visit [gameOfLife] throws when the argument has fewer
    than [numRows] rows: at the latest the first cell of the first missing
    row is read. *)
Lemma gameOfLife_throws :
  (length g < numRows)%nat -> (1 <= numCols)%nat ->
  Life.gameOfLife numRows numCols g = Throw TypeError.
Proof.
  intros Hrows Hcols. unfold Life.gameOfLife. rewrite map_id.
  replace numRows with (length g + S (numRows - S (length g)))%nat at 2 by lia.
  rewrite seq_app, forEach_app. simpl.
  destruct (forEach _ (seq 0 (length g)) g) as [t|[]]; [|done].
  assert (Hrow : Life.stepRow numRows numCols g t (length g) = Throw TypeError).
  { unfold Life.stepRow. destruct numCols as [|m]; [lia|]. simpl.
    unfold Life.stepCell.
    destruct (Life.countLiveNeighbors _ _ _ _ _) as [n|[]]; [simpl|done].
    by rewrite getCell_row_missing. }
  by rewrite Hrow.
Qed.
End AnyGrid.

Lemma forEach_preserves {S A : Type} (P : S -> Prop)
      (body : S -> A -> result S) (xs : list A) :
  (forall s x s', x ∈ xs -> P s -> body s x = Ok s' -> P s') ->
  forall s s', P s -> forEach body xs s = Ok s' -> P s'.
Proof.
  induction xs as [|x xs IH]; intros Hbody s s' Hs; simpl.
  - by intros [= <-].
  - destruct (body s x) as [s1|] eqn:H1; [|done].
    apply IH.
    + intros t y t' Hy. apply Hbody. by right.
    + eapply Hbody; [by left | done | done].
Qed.

(** X1. [gameOfLife] returns exactly when its argument has at least
    [numRows] rows, whatever their lengths, or there is no column to visit;
    otherwise it throws a TypeError. *)
Theorem gameOfLife_returns_iff (numRows numCols : nat) (g : grid) :
  ((exists g', Life.gameOfLife numRows numCols g = Ok g') <->
   (numRows <= length g)%nat \/ numCols = 0%nat) /\
  (Life.gameOfLife numRows numCols g = Throw TypeError <->
   (length g < numRows)%nat /\ (1 <= numCols)%nat).
Proof.
  destruct (decide (numRows <= length g)%nat) as [Hrows|Hrows].
  - destruct (gameOfLife_returns numRows numCols g Hrows) as [g' Hg'].
    split; split; try (rewrite Hg'; done); try lia; eauto.
  - destruct (decide (numCols = 0%nat)) as [Hcols|Hcols].
    + pose proof (gameOfLife_no_columns numRows numCols g Hcols) as Hg.
      split; split; try (rewrite Hg; done); try lia; eauto.
    + pose proof (gameOfLife_throws numRows numCols g) as Hg.
      rewrite Hg by lia. split; split; try done; try lia.
      by intros [g' ?].
Qed.

Lemma gameOfLife_returns_iff_witness :
  (exists g', Life.gameOfLife 5 5 initialGrid = Ok g') /\
  Life.gameOfLife 5 5 blinker = Throw TypeError.
Proof.
  split.
  - apply (proj1 (gameOfLife_returns_iff 5 5 initialGrid)). left. simpl. lia.
  - apply (proj2 (gameOfLife_returns_iff 5 5 blinker)). simpl. lia.
Defined.

(** X2. [countLiveNeighbors], at any coordinates, returns when the grid has
    at least [numRows] rows, whatever their lengths (a cell missing from a
    row counts as dead); and whenever it returns, on any grid, the count is
    between 0 and 8. *)
Theorem countLiveNeighbors_any_grid (numRows numCols : nat) (g : grid)
        (row col : Z) :
  ((numRows <= length g)%nat ->
   exists n, Life.countLiveNeighbors numRows numCols g row col = Ok n) /\
  (forall n, Life.countLiveNeighbors numRows numCols g row col = Ok n ->
     0 <= n <= 8).
Proof.
  split.
  - apply countLiveNeighbors_returns.
  - intros n Hn.
    apply forEach_visit_range in Hn. simpl in Hn. lia.
Qed.

Lemma countLiveNeighbors_any_grid_witness :
  (exists n, Life.countLiveNeighbors 5 5 narrowGrid 1 3 = Ok n) /\
  0 <= 3 <= 8.
Proof.
  split.
  - apply (proj1 (countLiveNeighbors_any_grid 5 5 narrowGrid 1 3)). simpl. lia.
  - apply (proj2 (countLiveNeighbors_any_grid 5 5 narrowGrid 1 3) 3).
    reflexivity.
Defined.

(** X3. A grid [gameOfLife] returns has the rows of the argument from row
    [numRows] on, and in every row the cells from column [numCols] on:
    cells outside the constants' window are copied, never stepped. *)
Theorem gameOfLife_outside_window (numRows numCols : nat) (g g' : grid) :
  Life.gameOfLife numRows numCols g = Ok g' ->
  length g' = length g /\
  (forall r, (numRows <= r)%nat -> g' !! r = g !! r) /\
  (forall r c, (numCols <= c)%nat ->
     (g' !! r ≫= (.!! c)) = (g !! r ≫= (.!! c))).
Proof.
  unfold Life.gameOfLife. rewrite map_id.
  set (P := fun t : grid =>
    length t = length g /\
    (forall r, (numRows <= r)%nat -> t !! r = g !! r) /\
    (forall r c, (numCols <= c)%nat ->
       (t !! r ≫= (.!! c)) = (g !! r ≫= (.!! c)))).
  apply (forEach_preserves P); [|done].
  intros t k t' Hk%elem_of_seq Ht. unfold Life.stepRow.
  apply (forEach_preserves P); [|done].
  intros u col u' Hcol%elem_of_seq (Hlen & Hrows & Hcells) Hstep.
  destruct (stepCell_keeps _ _ _ _ _ _ _ Hstep) as (Hl & Hother & Hright).
  split; [congruence|]. split.
  - intros r Hr. rewrite Hother by lia. by apply Hrows.
  - intros r c Hc. rewrite <- (Hcells r c Hc).
    destruct (decide (r = k)) as [->|Hne].
    + apply Hright. lia.
    + by rewrite Hother.
Qed.

Lemma gameOfLife_outside_window_witness :
  Life.gameOfLife 5 5 wideGrid = Ok wideGridNext /\
  length wideGridNext = length wideGrid /\
  (forall r, (5 <= r)%nat -> wideGridNext !! r = wideGrid !! r) /\
  (forall r c, (5 <= c)%nat ->
     (wideGridNext !! r ≫= (.!! c)) = (wideGrid !! r ≫= (.!! c))).
Proof.
  assert (H : Life.gameOfLife 5 5 wideGrid = Ok wideGridNext) by reflexivity.
  split; [exact H|].
  exact (gameOfLife_outside_window 5 5 wideGrid wideGridNext H).
Defined.

(** ** The display *)

Lemma isAlive_of_nat (g : grid) (r c : nat) (v : value) :
  getCell g (Z.of_nat r) (Z.of_nat c) = Ok v ->
  isAlive g (Z.of_nat r, Z.of_nat c) = strict_eq_1 v.
Proof.
  unfold getCell, isAlive. rewrite cellAt_of_nat.
  destruct (Z.ltb_spec (Z.of_nat r) 0); [lia|]. rewrite Nat2Z.id.
  destruct (g !! r) as [arr|]; [|done]. intros [= <-]. simpl.
  unfold index. destruct (Z.ltb_spec (Z.of_nat c) 0); [lia|]. rewrite Nat2Z.id.
  by destruct (arr !! c).
Qed.

Section Display.
Variables numRows numCols : nat.
Variable g : grid.

Lemma renderCell_present (row col : nat) (cells : list cellDiv) :
  (row < length g)%nat ->
  Pages.renderCell g row cells col = Ok (cells ++ [displayCell g row col]).
Proof.
  intros Hrow. unfold Pages.renderCell.
  destruct (getCell_row_present g row (Z.of_nat col) Hrow) as [v Hv].
  rewrite Hv. simpl. unfold displayCell. by rewrite (isAlive_of_nat _ _ _ _ Hv).
Qed.

Lemma renderRow_present (row : nat) :
  (row < length g)%nat ->
  Pages.renderRow numCols g row =
  Ok (RowDiv ["grid-row"] (displayCell g row <$> seq 0 numCols)).
Proof.
  intros Hrow. unfold Pages.renderRow.
  destruct (forEach_seq_inv
    (fun k cells => cells = displayCell g row <$> seq 0 k)
    (Pages.renderCell g row) numCols []) as (cells & -> & ->); [done| |done].
  intros k cells _ ->. eexists. split; [by apply renderCell_present|].
  by rewrite seq_S, fmap_app.
Qed.

Lemma renderRow_no_columns (row : nat) :
  numCols = 0%nat ->
  Pages.renderRow numCols g row =
  Ok (RowDiv ["grid-row"] (displayCell g row <$> seq 0 numCols)).
Proof. intros ->. done. Qed.

Lemma renderRow_missing (row : nat) :
  (length g <= row)%nat -> (1 <= numCols)%nat ->
  Pages.renderRow numCols g row = Throw TypeError.
Proof.
  intros Hrow Hcols. unfold Pages.renderRow.
  destruct numCols as [|m]; [lia|]. simpl. unfold Pages.renderCell.
  by rewrite getCell_row_missing.
Qed.

Lemma renderRows_all (n a : nat) (container : list rowDiv) :
  (a + n <= length g)%nat \/ numCols = 0%nat ->
  Pages.renderRows numCols g (seq a n) container =
  (container ++
     ((fun r => RowDiv ["grid-row"] (displayCell g r <$> seq 0 numCols))
        <$> seq a n), Ok tt).
Proof.
  revert a container. induction n as [|n IH]; intros a container H; simpl.
  - by rewrite app_nil_r.
  - assert (Hrow : Pages.renderRow numCols g a =
                   Ok (RowDiv ["grid-row"] (displayCell g a <$> seq 0 numCols))).
    { destruct H as [H|H]; [apply renderRow_present; lia
                           | by apply renderRow_no_columns]. }
    rewrite Hrow, IH by (destruct H; [left; lia | by right]).
    by rewrite <- app_assoc.
Qed.

Lemma createGridDisplay_all :
  (numRows <= length g)%nat \/ numCols = 0%nat ->
  Pages.createGridDisplay numRows numCols g =
  (displayOf numRows numCols g, Ok tt).
Proof.
  intros H. unfold Pages.createGridDisplay.
  rewrite renderRows_all by (destruct H; [by left | by right]). done.
Qed.

Lemma createGridDisplay_missing :
  (length g < numRows)%nat -> (1 <= numCols)%nat ->
  Pages.createGridDisplay numRows numCols g =
  (displayOf (length g) numCols g, Throw TypeError).
Proof.
  intros Hrows Hcols. unfold Pages.createGridDisplay.
  replace numRows with (length g + S (numRows - S (length g)))%nat by lia.
  rewrite seq_app. simpl.
  assert (Hsplit : forall rows rows' container,
    Pages.renderRows numCols g (rows ++ rows') container =
    match Pages.renderRows numCols g rows container with
    | (d, Ok _) => Pages.renderRows numCols g rows' d
    | (d, Throw e) => (d, Throw e)
    end).
  { induction rows as [|r rows IH]; intros rows' container; simpl; [done|].
    destruct (Pages.renderRow numCols g r); [apply IH | done]. }
  rewrite Hsplit, renderRows_all by (left; lia). simpl.
  by rewrite renderRow_missing by lia.
Qed.

(** The display's rows are read with the same reads as the loops the
    settled model of [createGridDisplay()] makes. *)
Lemma createGridDisplay_result :
  (Pages.createGridDisplay numRows numCols g).2 =
  Life.createGridDisplay numRows numCols g.
Proof.
  destruct (decide ((numRows <= length g)%nat \/ numCols = 0%nat)) as [H|H].
  - rewrite createGridDisplay_all by done. simpl. symmetry.
    unfold Life.createGridDisplay.
    destruct (forEach_seq_inv (fun _ _ => True)
      (fun (_ : unit) row =>
         forEach (fun (_ : unit) col =>
           _ ← getCell g (Z.of_nat row) (Z.of_nat col); Ok tt)
           (seq 0 numCols) tt) numRows tt) as ([] & Hrun & _); [done| |done].
    intros r [] Hr _.
    destruct (forEach_seq_inv (fun _ _ => True)
      (fun (_ : unit) col => _ ← getCell g (Z.of_nat r) (Z.of_nat col); Ok tt)
      numCols tt) as ([] & Hrun & _); [done| |by exists tt].
    intros c [] Hc _. exists tt. split; [|done].
    destruct (getCell_row_present g r (Z.of_nat c)) as [v ->]; [lia|done].
  - rewrite createGridDisplay_missing by lia. simpl. symmetry.
    unfold Life.createGridDisplay.
    replace numRows with (length g + S (numRows - S (length g)))%nat by lia.
    rewrite seq_app, forEach_app. simpl.
    destruct (forEach _ (seq 0 (length g)) tt) as [[]|[]]; [|done].
    destruct numCols as [|m]; [lia|]. simpl.
    by rewrite getCell_row_missing.
Qed.

Lemma hasCell_displayOf (row col : nat) :
  Pages.hasCell (displayOf numRows numCols g) row col = true <->
  (row < numRows)%nat /\ (col < numCols)%nat.
Proof.
  unfold Pages.hasCell, displayOf. rewrite existsb_exists. split.
  - intros (r & Hr & Hex). apply in_map_iff in Hr as (i & <- & Hi).
    apply in_seq in Hi. simpl in Hex. apply existsb_exists in Hex as (c & Hc & Hclick).
    apply in_map_iff in Hc as (j & <- & Hj). apply in_seq in Hj.
    apply bool_decide_eq_true in Hclick. simpl in Hclick.
    injection Hclick as -> ->. lia.
  - intros [Hr Hc]. eexists. split.
    + apply in_map_iff. exists row. split; [done|]. apply in_seq. lia.
    + simpl. apply existsb_exists. exists (displayCell g row col). split.
      * apply in_map_iff. exists col. split; [done|]. apply in_seq. lia.
      * by apply bool_decide_eq_true.
Qed.
End Display.

(** ** The click listener of a cell *)

Lemma toggle_missing_row (g : grid) (row col : nat) :
  (length g <= row)%nat -> toggle g row col = Throw TypeError.
Proof. intros H. unfold toggle. by rewrite getCell_row_missing. Qed.

Lemma cellAt_insert_other (g : grid) (r c : nat) (arr : list value) (v : value)
      (p : Z * Z) :
  g !! r = Some arr -> (c < length arr)%nat ->
  p <> (Z.of_nat r, Z.of_nat c) ->
  cellAt (<[r := <[c := v]> arr]> g) p = cellAt g p.
Proof.
  intros Hr Hc Hp. destruct p as [pr pc]. unfold cellAt. simpl.
  destruct ((pr <? 0) || (pc <? 0)) eqn:Hneg; [done|].
  destruct (decide (Z.to_nat pr = r)) as [Heq|Hne].
  - rewrite Heq, list_lookup_insert_eq by (by eapply lookup_lt_Some).
    rewrite Hr. simpl. apply list_lookup_insert_ne.
    intros Hc'. apply Hp. f_equal; lia.
  - by rewrite list_lookup_insert_ne.
Qed.

Section Toggle.
Variables numRows numCols : nat.
Variable g : grid.
Hypothesis Hdims : dims numRows numCols g.

Lemma toggle_dims (row col : nat) :
  (row < numRows)%nat -> (col < numCols)%nat ->
  exists arr cur,
    g !! row = Some arr /\ arr !! col = Some cur /\
    toggle g row col =
    Ok (<[row := <[col := VNumber (if strict_eq_1 cur then 0 else 1)]> arr]> g).
Proof using Hdims.
  intros Hr Hc. destruct Hdims as [Hlen Hrows].
  destruct (lookup_lt_is_Some_2 g row) as [arr Harr]; [lia|].
  pose proof (proj1 (Forall_lookup _ _) Hrows row arr Harr) as Hla. simpl in Hla.
  destruct (lookup_lt_is_Some_2 arr col) as [cur Hcur]; [lia|].
  exists arr, cur. split; [done|]. split; [done|].
  unfold toggle. rewrite (getCell_of_nat _ _ _ _ _ Harr Hcur). simpl.
  unfold setCell. rewrite Harr. by rewrite assign_inside by lia.
Qed.

Lemma insert_cell_dims (row col : nat) (arr : list value) (v : value) :
  g !! row = Some arr ->
  dims numRows numCols (<[row := <[col := v]> arr]> g).
Proof using Hdims.
  intros Harr. destruct Hdims as [Hlen Hrows]. split.
  - by rewrite length_insert.
  - apply Forall_insert; [done|]. rewrite length_insert.
    by eapply (proj1 (Forall_lookup _ _) Hrows).
Qed.

Lemma insert_cell_binary (row col : nat) (arr : list value) (v : value) :
  binary g -> g !! row = Some arr -> v = VNumber 0 \/ v = VNumber 1 ->
  binary (<[row := <[col := v]> arr]> g).
Proof.
  intros Hbin Harr Hv. apply Forall_insert; [done|].
  apply Forall_insert; [|done].
  by eapply (proj1 (Forall_lookup _ _) Hbin).
Qed.
End Toggle.

(** X4. On a grid of [rows × cols] cells the listener of a displayed cell
    returns a grid of the same dimensions in which that cell is [0] if it
    was [1] and [1] otherwise, and every other cell is as before; on a
    [0]/[1] grid a second click gives the first grid back. *)
Theorem toggle_flips_one_cell (rows cols : nat) (g : grid) (row col : nat) :
  dims rows cols g -> (row < rows)%nat -> (col < cols)%nat ->
  exists g',
    toggle g row col = Ok g' /\
    dims rows cols g' /\
    cellAt g' (Z.of_nat row, Z.of_nat col) =
      Some (VNumber (if isAlive g (Z.of_nat row, Z.of_nat col) then 0 else 1)) /\
    (forall p, p <> (Z.of_nat row, Z.of_nat col) -> cellAt g' p = cellAt g p) /\
    (binary g -> binary g' /\ toggle g' row col = Ok g).
Proof.
  intros Hdims Hr Hc.
  destruct (toggle_dims rows cols g Hdims row col Hr Hc)
    as (arr & cur & Harr & Hcur & Htoggle).
  assert (Hrl : (row < length g)%nat) by (by eapply lookup_lt_Some).
  assert (Hcl : (col < length arr)%nat) by (by eapply lookup_lt_Some).
  eexists. split; [exact Htoggle|].
  split; [by apply insert_cell_dims|]. split; [|split].
  - rewrite cellAt_of_nat, list_lookup_insert_eq by done. simpl.
    rewrite list_lookup_insert_eq by done.
    unfold isAlive. rewrite cellAt_of_nat, Harr. simpl. by rewrite Hcur.
  - intros p Hp. by eapply cellAt_insert_other.
  - intros Hbin.
    set (v := VNumber (if strict_eq_1 cur then 0 else 1)).
    assert (Hv : v = VNumber 0 \/ v = VNumber 1).
    { unfold v. destruct (strict_eq_1 cur); auto. }
    split; [by apply insert_cell_binary|].
    pose proof (insert_cell_dims rows cols g Hdims row col arr v Harr) as Hdims'.
    destruct (toggle_dims rows cols _ Hdims' row col Hr Hc)
      as (arr' & cur' & Harr' & Hcur' & ->).
    rewrite list_lookup_insert_eq in Harr' by done. injection Harr' as <-.
    rewrite list_lookup_insert_eq in Hcur' by done. injection Hcur' as <-.
    f_equal. rewrite list_insert_insert_eq, list_insert_insert_eq.
    assert (Hcur0 : cur = VNumber 0 \/ cur = VNumber 1).
    { pose proof (proj1 (Forall_lookup _ _) Hbin row arr Harr) as Hb.
      exact (proj1 (Forall_lookup _ _) Hb col cur Hcur). }
    assert (Hback : VNumber (if strict_eq_1 v then 0 else 1) = cur).
    { unfold v. by destruct Hcur0 as [-> | ->]. }
    rewrite Hback.
    by rewrite (list_insert_id arr col cur), (list_insert_id g row arr).
Qed.

Lemma toggle_flips_one_cell_witness :
  dims 5 5 initialGrid /\
  exists g',
    toggle initialGrid 1 2 = Ok g' /\
    dims 5 5 g' /\
    cellAt g' (Z.of_nat 1, Z.of_nat 2) =
      Some (VNumber (if isAlive initialGrid (Z.of_nat 1, Z.of_nat 2) then 0 else 1)) /\
    (forall p, p <> (Z.of_nat 1, Z.of_nat 2) -> cellAt g' p = cellAt initialGrid p) /\
    (binary initialGrid -> binary g' /\ toggle g' 1 2 = Ok initialGrid).
Proof.
  assert (H : dims 5 5 initialGrid) by (split; [reflexivity | repeat constructor]).
  split; [exact H|].
  apply (toggle_flips_one_cell 5 5 initialGrid 1 2 H); lia.
Defined.

(** ** The page keeps its invariant *)

Lemma clearInterval_agree (s : page) :
  timersAgree s -> clearInterval (intervalId s) (intervals s) = ∅.
Proof.
  unfold timersAgree, clearInterval. destruct (isRunning s).
  - intros (id & -> & ->). apply difference_diag_L.
  - intros ->. destruct (intervalId s); [apply empty_difference_L | done].
Qed.

Section PageFacts.
Variables numRows numCols : nat.
Variable literal : grid.
Variable generation : grid -> result grid.
Hypothesis Hliteral : dims numRows numCols literal /\ binary literal.
Hypothesis Hgeneration :
  forall g, generation g = Life.gameOfLife numRows numCols g.

Local Abbreviation handle := (Pages.handle numRows numCols literal generation).
Local Abbreviation run := (Pages.run numRows numCols literal generation).
Local Abbreviation inv := (pageInvariant numRows numCols).

Lemma display_dims (g : grid) :
  dims numRows numCols g ->
  Pages.createGridDisplay numRows numCols g = (displayOf numRows numCols g, Ok tt).
Proof. intros [Hlen _]. apply createGridDisplay_all. left. lia. Qed.

Lemma load_invariant :
  inv (Pages.load numRows numCols literal).1 /\
  (Pages.load numRows numCols literal).2 = Ok tt.
Proof using Hliteral.
  destruct Hliteral as [Hd Hb]. unfold Pages.load.
  rewrite (display_dims _ Hd). by split.
Qed.

Lemma computeNextGeneration_invariant (s : page) :
  inv s ->
  Pages.computeNextGeneration numRows numCols generation s =
  (Page (stepped numRows numCols (pageGrid s)) (isRunning s) (intervalId s)
        (intervals s)
        (displayOf numRows numCols (stepped numRows numCols (pageGrid s))),
   Ok tt).
Proof using Hgeneration.
  intros (Hd & Hb & Hdisp & Ht). unfold Pages.computeNextGeneration.
  rewrite Hgeneration, (gameOfLife_dims _ _ _ Hd).
  by rewrite (display_dims _ (stepped_dims _ _ _ _ _ Hd)).
Qed.

Lemma clickCell_displayed (s : page) (r c : nat) :
  inv s -> (r < numRows)%nat -> (c < numCols)%nat ->
  exists g',
    toggle (pageGrid s) r c = Ok g' /\
    Pages.clickCell numRows numCols s r c =
    (Page g' (isRunning s) (intervalId s) (intervals s)
          (displayOf numRows numCols g'), Ok tt).
Proof.
  intros (Hd & Hb & Hdisp & Ht) Hr Hc. unfold Pages.clickCell.
  rewrite Hdisp, (proj2 (hasCell_displayOf _ _ _ r c)) by done.
  destruct (toggle_flips_one_cell _ _ _ r c Hd Hr Hc)
    as (g' & Hg' & Hd' & _).
  exists g'. split; [done|]. by rewrite Hg', (display_dims _ Hd').
Qed.

Lemma clickCell_not_displayed (s : page) (r c : nat) :
  inv s -> ~ ((r < numRows)%nat /\ (c < numCols)%nat) ->
  Pages.clickCell numRows numCols s r c = (s, Ok tt).
Proof.
  intros (Hd & Hb & Hdisp & Ht) Hout. unfold Pages.clickCell. rewrite Hdisp.
  destruct (Pages.hasCell _ r c) eqn:Hcell; [|done].
  by apply hasCell_displayOf in Hcell.
Qed.

Lemma handle_invariant (s : page) (e : event) :
  inv s -> inv (handle s e).1 /\ (handle s e).2 = Ok tt.
Proof using Hliteral Hgeneration.
  intros Hs. pose proof Hs as (Hd & Hb & Hdisp & Ht).
  assert (Hnext : inv (Pages.computeNextGeneration numRows numCols generation s).1 /\
                  (Pages.computeNextGeneration numRows numCols generation s).2 = Ok tt).
  { rewrite (computeNextGeneration_invariant s Hs). split; [|done].
    split; [by apply stepped_dims|]. split; [by apply stepped_binary|]. done. }
  destruct e as [| | | |row col|id]; simpl.
  - exact Hnext.
  - unfold Pages.clickStart. unfold timersAgree in Ht.
    destruct (isRunning s) eqn:Hrun; simpl; [done|].
    split; [|done]. split; [done|]. split; [done|]. split; [done|].
    unfold timersAgree. simpl.
    eexists. split; [done|]. rewrite Ht. apply (right_id_L ∅ (∪)).
  - unfold Pages.clickPause. simpl.
    split; [|done]. split; [done|]. split; [done|]. split; [done|].
    unfold timersAgree. simpl. by apply clearInterval_agree.
  - unfold Pages.clickReset. destruct Hliteral as [Hld Hlb].
    rewrite (display_dims _ Hld). simpl.
    split; [|done]. split; [done|]. split; [done|]. split; [done|].
    unfold timersAgree. simpl. by apply clearInterval_agree.
  - unfold Pages.clickCell.
    destruct (Pages.hasCell (gridContainer s) row col) eqn:Hcell; [|done].
    rewrite Hdisp in Hcell. apply hasCell_displayOf in Hcell as [Hr Hc].
    destruct (toggle_flips_one_cell _ _ _ row col Hd Hr Hc)
      as (g' & -> & Hd' & _ & _ & Hbin).
    rewrite (display_dims _ Hd'). simpl.
    split; [|done]. split; [done|]. split; [by apply Hbin|]. done.
  - unfold Pages.tick. destruct (decide (id ∈ intervals s)); [exact Hnext|done].
Qed.

Lemma run_snoc (events : list event) (e : event) :
  run (events ++ [e]) = (handle (run events) e).1.
Proof. unfold Pages.run. by rewrite foldl_app. Qed.

Lemma run_invariant (events : list event) : inv (run events).
Proof using Hliteral Hgeneration.
  induction events as [|e events IH] using rev_ind.
  - apply load_invariant.
  - rewrite run_snoc. by apply handle_invariant.
Qed.
End PageFacts.

Lemma initialGrid_literal :
  dims Part000.numRows Part000.numCols initialGrid /\ binary initialGrid.
Proof.
  split; [apply initialGrid_dims|].
  repeat (constructor; [repeat (constructor; [auto|]); constructor|]); constructor.
Qed.

Lemma part000_invariant (events : list event) :
  pageInvariant Part000.numRows Part000.numCols (Part000Page.run events).
Proof. apply run_invariant; [apply initialGrid_literal | done]. Qed.

Lemma evaluate_invariant (events : list event) :
  pageInvariant Evaluate.numRows Evaluate.numCols (EvaluatePage.run events).
Proof.
  apply run_invariant; [apply initialGrid_literal |].
  intros g. apply nextGrid_eval_gameOfLife.
Qed.

Lemma handle_ext (numRows numCols : nat) (literal : grid)
      (gen1 gen2 : grid -> result grid) (s : page) (e : event) :
  (forall g, gen1 g = gen2 g) ->
  Pages.handle numRows numCols literal gen1 s e =
  Pages.handle numRows numCols literal gen2 s e.
Proof.
  intros Hgen. destruct e; simpl; try done.
  - unfold Pages.computeNextGeneration. by rewrite Hgen.
  - unfold Pages.tick, Pages.computeNextGeneration. by rewrite Hgen.
Qed.

Lemma part000_run_snoc (events : list event) (e : event) :
  Part000Page.run (events ++ [e]) =
  (Part000Page.handle (Part000Page.run events) e).1.
Proof. apply run_snoc. Qed.

Lemma part000_run_app (events events' : list event) :
  Part000Page.run (events ++ events') =
  foldl (fun s e => (Part000Page.handle s e).1) (Part000Page.run events) events'.
Proof. unfold Part000Page.run, Pages.run. by rewrite foldl_app. Qed.

(** ** The page: properties X5 to X14 *)

(** X5. The two scripts are the same page: after the same events the
    module variables, the timers and the display of [evaluate.js] are
    those of [part_000]. *)
Theorem scripts_same_page (events : list event) :
  EvaluatePage.run events = Part000Page.run events.
Proof.
  induction events as [|e events IH] using rev_ind; [done|].
  unfold EvaluatePage.run, Part000Page.run in *.
  rewrite !run_snoc, IH.
  f_equal. apply handle_ext. intros g. apply nextGrid_eval_gameOfLife.
Qed.

(** X6. On the page the module variable [grid] always holds a grid of the
    script's dimensions whose cells are [0] or [1], whatever the user
    clicks and whenever the timer fires. *)
Theorem page_grid_shape (events : list event) :
  dims Part000.numRows Part000.numCols (pageGrid (Part000Page.run events)) /\
  binary (pageGrid (Part000Page.run events)).
Proof.
  destruct (part000_invariant events) as (Hd & Hb & _). by split.
Qed.

(** X7. On the page nothing ever throws: the script loads without an
    exception, and after any events every listener and every timer
    callback ends without one. *)
Theorem page_never_throws (events : list event) (e : event) :
  Part000Page.load.2 = Ok tt /\
  (Part000Page.handle (Part000Page.run events) e).2 = Ok tt.
Proof.
  split; [reflexivity|].
  apply (handle_invariant Part000.numRows Part000.numCols initialGrid
           Part000.gameOfLife initialGrid_literal (fun g => eq_refl)).
  apply part000_invariant.
Qed.

(** X8. The display always shows the current grid: [numRows] row [div]s of
    [numCols] cell [div]s, each with class [alive] exactly where the grid
    holds [1], and with the listener of its own coordinate. *)
Theorem page_display_in_sync (events : list event) :
  gridContainer (Part000Page.run events) =
  displayOf Part000.numRows Part000.numCols (pageGrid (Part000Page.run events)).
Proof. by destruct (part000_invariant events) as (_ & _ & Hdisp & _). Qed.

(** X9. At most one timer runs, and [isRunning] tells whether one does:
    while it is set the running timers are exactly the one [intervalId]
    names, otherwise there is none; a click on start while running adds
    no timer. *)
Theorem page_one_timer (events : list event) :
  let s := Part000Page.run events in
  ((isRunning s = true /\
    exists id, intervalId s = Some id /\ intervals s = {[id]}) \/
   (isRunning s = false /\ intervals s = ∅)) /\
  Part000Page.run (events ++ [ClickStart; ClickStart]) =
  Part000Page.run (events ++ [ClickStart]).
Proof.
  intros s. split.
  - destruct (part000_invariant events) as (_ & _ & _ & Ht).
    unfold timersAgree in Ht. fold s in Ht.
    destruct (isRunning s); [left | right]; by split.
  - replace (events ++ [ClickStart; ClickStart])
      with ((events ++ [ClickStart]) ++ [ClickStart]) by (by rewrite <- app_assoc).
    rewrite (part000_run_snoc (events ++ [ClickStart])).
    set (s1 := Part000Page.run (events ++ [ClickStart])).
    assert (Hrun : isRunning s1 = true).
    { unfold s1. rewrite part000_run_snoc. simpl. unfold Pages.clickStart.
      by destruct (isRunning (Part000Page.run events)) eqn:E. }
    simpl. unfold Pages.clickStart. by rewrite Hrun.
Qed.

(** X10. Pause stops the simulation: after a click on pause no timer is
    left, and timer ids that fire afterwards change nothing. *)
Theorem pause_stops_timer (events : list event) (ids : list positive) :
  intervals (Part000Page.run (events ++ [ClickPause])) = ∅ /\
  Part000Page.run (events ++ [ClickPause] ++ (Tick <$> ids)) =
  Part000Page.run (events ++ [ClickPause]).
Proof.
  assert (Hnone : intervals (Part000Page.run (events ++ [ClickPause])) = ∅).
  { destruct (part000_invariant (events ++ [ClickPause])) as (_ & _ & _ & Ht).
    unfold timersAgree in Ht. rewrite part000_run_snoc in Ht |- *.
    simpl in *. exact Ht. }
  split; [exact Hnone|].
  rewrite app_assoc, part000_run_app.
  set (s := Part000Page.run (events ++ [ClickPause])) in *.
  induction ids as [|id ids IH]; simpl; [done|].
  unfold Pages.tick. rewrite Hnone.
  destruct (decide (id ∈ (∅ : gset positive))) as [Hin|_];
    [by apply not_elem_of_empty in Hin|].
  exact IH.
Qed.

(** X11. Reset brings the page back to its state after loading: the
    literal grid, not running, no timer, the literal's display; only the
    stale id of the last timer stays in [intervalId]. *)
Theorem reset_restores_loaded_page (events : list event) :
  Part000Page.run (events ++ [ClickReset]) =
  Page (pageGrid Part000Page.load.1) (isRunning Part000Page.load.1)
       (intervalId (Part000Page.run events))
       (intervals Part000Page.load.1) (gridContainer Part000Page.load.1).
Proof.
  rewrite part000_run_snoc. simpl. unfold Pages.clickReset. simpl.
  destruct (part000_invariant events) as (_ & _ & _ & Ht).
  by rewrite (clearInterval_agree _ Ht).
Qed.

(** X12. A second click on the same cell undoes the first: the page is
    again as it was. *)
Theorem click_twice_restores_page (events : list event) (row col : nat) :
  Part000Page.run (events ++ [ClickCell row col; ClickCell row col]) =
  Part000Page.run events.
Proof.
  replace (events ++ [ClickCell row col; ClickCell row col])
    with ((events ++ [ClickCell row col]) ++ [ClickCell row col])
    by (by rewrite <- app_assoc).
  rewrite !part000_run_snoc.
  pose proof (part000_invariant events) as Hinv.
  pose proof (part000_invariant (events ++ [ClickCell row col])) as Hinv'.
  rewrite part000_run_snoc in Hinv'.
  set (s := Part000Page.run events) in *.
  assert (Hclick0 : forall t, Part000Page.handle t (ClickCell row col) =
            Pages.clickCell Part000.numRows Part000.numCols t row col) by done.
  rewrite !Hclick0 in *. clear Hclick0.
  destruct (decide ((row < Part000.numRows)%nat /\ (col < Part000.numCols)%nat))
    as [[Hr Hc]|Hout].
  - pose proof Hinv as (Hd & Hb & Hdisp & _).
    destruct (clickCell_displayed Part000.numRows Part000.numCols s row col
                Hinv Hr Hc) as (g' & Hg' & Hclick).
    rewrite Hclick in Hinv' |- *. simpl in Hinv' |- *.
    destruct (clickCell_displayed Part000.numRows Part000.numCols _ row col
                Hinv' Hr Hc) as (g'' & Hg'' & ->). simpl in *.
    destruct (toggle_flips_one_cell _ _ _ row col Hd Hr Hc)
      as (h & Hh & _ & _ & _ & Hbin).
    rewrite Hg' in Hh. injection Hh as <-.
    destruct (Hbin Hb) as [_ Hback]. rewrite Hback in Hg''. injection Hg'' as <-.
    rewrite <- Hdisp. by destruct s.
  - rewrite (clickCell_not_displayed Part000.numRows Part000.numCols s row col
               Hinv Hout). simpl.
    by rewrite (clickCell_not_displayed Part000.numRows Part000.numCols s row col
                  Hinv Hout).
Qed.

(** X13. On the page a generation step follows the rules: after a click
    on next, every cell is the rules' verdict on the cell and its live
    neighbours in the grid before; a tick of the running timer does
    what a click on next does. *)
Theorem page_step_follows_rules (events : list event) (row col : nat)
        (id : positive) :
  (row < Part000.numRows)%nat -> (col < Part000.numCols)%nat ->
  let g := pageGrid (Part000Page.run events) in
  cellAt (pageGrid (Part000Page.run (events ++ [ClickNext])))
         (Z.of_nat row, Z.of_nat col) =
    Some (ofBool (lifeRule (isAlive g (Z.of_nat row, Z.of_nat col))
            (liveNeighborCount Part000.numRows Part000.numCols g
               (Z.of_nat row) (Z.of_nat col)))) /\
  (id ∈ intervals (Part000Page.run events) ->
   Part000Page.run (events ++ [Tick id]) =
   Part000Page.run (events ++ [ClickNext])).
Proof.
  intros Hr Hc g. split.
  - rewrite part000_run_snoc. simpl.
    pose proof (part000_invariant events) as Hinv.
    rewrite (computeNextGeneration_invariant Part000.numRows Part000.numCols
               Part000.gameOfLife (fun g => eq_refl) _ Hinv). simpl.
    destruct Hinv as (Hd & Hb & _).
    destruct (gameOfLife_rules _ _ _ Hd Hb) as (g' & Hg' & _ & _ & Hrules).
    rewrite (gameOfLife_dims _ _ _ Hd) in Hg'. injection Hg' as <-.
    by apply Hrules.
  - intros Hin. rewrite !part000_run_snoc. simpl. unfold Pages.tick.
    by rewrite decide_True.
Qed.

Lemma page_step_follows_rules_witness :
  (1 < Part000.numRows)%nat /\ (0 < Part000.numCols)%nat /\
  cellAt (pageGrid (Part000Page.run ([ClickStart] ++ [ClickNext])))
         (Z.of_nat 1, Z.of_nat 0) =
    Some (ofBool (lifeRule
            (isAlive (pageGrid (Part000Page.run [ClickStart])) (Z.of_nat 1, Z.of_nat 0))
            (liveNeighborCount Part000.numRows Part000.numCols
               (pageGrid (Part000Page.run [ClickStart]))
               (Z.of_nat 1) (Z.of_nat 0)))) /\
  (1%positive ∈ intervals (Part000Page.run [ClickStart]) ->
   Part000Page.run ([ClickStart] ++ [Tick 1%positive]) =
   Part000Page.run ([ClickStart] ++ [ClickNext])).
Proof.
  assert (Hr : (1 < Part000.numRows)%nat) by (vm_compute; lia).
  assert (Hc : (0 < Part000.numCols)%nat) by (vm_compute; lia).
  split; [exact Hr|]. split; [exact Hc|].
  exact (page_step_follows_rules [ClickStart] 1 0 1%positive Hr Hc).
Defined.

(** X14. [createGridDisplay()] on any grid: with at least [numRows] rows,
    of any lengths, it shows [numRows] rows of [numCols] cells, [dead]
    where a row has no cell; with fewer rows (and a column to show) it
    shows the rows there are and throws a TypeError at the first missing
    row. *)
Theorem createGridDisplay_any_grid (numRows numCols : nat) (g : grid) :
  ((numRows <= length g)%nat \/ numCols = 0%nat ->
   Pages.createGridDisplay numRows numCols g =
   (displayOf numRows numCols g, Ok tt)) /\
  ((length g < numRows)%nat -> (1 <= numCols)%nat ->
   Pages.createGridDisplay numRows numCols g =
   (displayOf (length g) numCols g, Throw TypeError)).
Proof.
  split; [apply createGridDisplay_all | apply createGridDisplay_missing].
Qed.

Lemma createGridDisplay_any_grid_witness :
  Pages.createGridDisplay 5 5 narrowGrid = (displayOf 5 5 narrowGrid, Ok tt) /\
  Pages.createGridDisplay 5 5 blinker = (displayOf 3 5 blinker, Throw TypeError).
Proof.
  split.
  - apply (proj1 (createGridDisplay_any_grid 5 5 narrowGrid)). left. simpl. lia.
  - apply (proj2 (createGridDisplay_any_grid 5 5 blinker)); simpl; lia.
Defined.

(** ** The store: a later click on the argument or on the result *)

(** A click writes at most one array object, a row of the grid clicked. *)
Lemma toggleInPlace_writes (v : value) (r c : nat) (h : gmap loc (list value)) :
  (toggleInPlace v r c h).1 = h \/
  exists lg elems l arr,
    v = VRef lg /\ h !! lg = Some elems /\ elems !! r = Some (VRef l) /\
    (toggleInPlace v r c h).1 = <[l := arr]> h.
Proof.
  destruct v as [| |lg]; try by left.
  destruct (h !! lg) as [elems|] eqn:Hlg.
  - assert (Hread : Store.getIndex (VRef lg) (Z.of_nat r) h =
                    (h, Ok (index elems (Z.of_nat r)))).
    { unfold Store.getIndex. by rewrite Hlg. }
    unfold toggleInPlace.
    rewrite !(StoreRefinement.bind_run _ _ _ _ _ Hread).
    unfold index. destruct (Z.ltb_spec (Z.of_nat r) 0); [lia|]. rewrite Nat2Z.id.
    destruct (elems !! r) as [e|] eqn:He; simpl; [|by left].
    destruct e as [| |l]; try by left.
    unfold Store.bind, Store.getIndex, Store.setIndex.
    destruct (h !! l) as [arr|] eqn:Hl; simpl; [|by left].
    rewrite Hl. simpl.
    right. exists lg, elems, l. eexists.
    split; [done|]. split; [done|]. split; [done|]. reflexivity.
  - left. unfold toggleInPlace, Store.bind, Store.getIndex. by rewrite Hlg.
Qed.

Lemma mapM_agree {A B} (f f' : A -> option B) (l : list A) :
  Forall (fun x => f x = f' x) l -> mapM f l = mapM f' l.
Proof.
  induction 1 as [|x l Hx _ IH]; [done|].
  simpl. by rewrite Hx, IH.
Qed.

Lemma snapshot_insert_outside (h : gmap loc (list value)) (v : value)
      (l : loc) (arr : list value) (lg : loc) (ls : list loc) :
  v = VRef lg -> h !! lg = Some (VRef <$> ls) -> l <> lg -> l ∉ ls ->
  Store.snapshot (<[l := arr]> h) v = Store.snapshot h v.
Proof.
  intros -> Hlg Hne Hnotin. unfold Store.snapshot. simpl.
  rewrite lookup_insert_ne by done. rewrite Hlg. simpl.
  apply mapM_agree, Forall_fmap, Forall_forall. intros l0 Hl0. simpl.
  apply lookup_insert_ne. by intros ->.
Qed.

(** X15. The grid [gameOfLife] returns shares no array object with its
    argument: a later click on a cell of the result leaves the argument
    as it was, and a later click on a cell of the argument leaves the
    result as it was. *)
Theorem result_and_argument_share_nothing (numRows numCols : nat)
        (h : gmap loc (list value)) (v v' : value) (g : grid) (r c : nat) :
  Store.snapshot h v = Some g ->
  (Store.gameOfLife numRows numCols v h).2 = Ok v' ->
  let h1 := (Store.gameOfLife numRows numCols v h).1 in
  Store.snapshot (toggleInPlace v' r c h1).1 v = Some g /\
  Store.snapshot (toggleInPlace v r c h1).1 v' = Store.snapshot h1 v'.
Proof.
  intros Hg Hret h1.
  destruct (StoreFacts.gameOfLife_store numRows numCols v h) as [Hsub Hnew].
  destruct (Hnew v' Hret) as (lN & ls & -> & Hsep).
  fold h1 in Hsub, Hsep.
  destruct Hsep as (_ & HlN & H0N & Hls).
  split.
  - destruct (toggleInPlace_writes (VRef lN) r c h1)
      as [-> | (lg & elems & l & arr & [= <-] & Helems & Hl & ->)];
      [by eapply snapshot_weaken|].
    rewrite HlN in Helems. injection Helems as <-.
    rewrite list_lookup_fmap in Hl.
    destruct (ls !! r) as [l'|] eqn:Hl'; [|done]. injection Hl as ->.
    destruct (proj1 (Forall_lookup _ _) Hls r l Hl') as [H0l _].
    eapply snapshot_weaken; [|exact Hg]. by apply insert_subseteq_r.
  - destruct (toggleInPlace_writes v r c h1)
      as [-> | (lg & elems & l & arr & -> & Helems & Hl & ->)]; [done|].
    apply StoreRefinement.snapshot_inv in Hg
      as (lg' & elems' & [= <-] & Hlg & Hrows).
    rewrite (lookup_weaken _ _ _ _ Hlg Hsub) in Helems. injection Helems as <-.
    destruct (Forall2_lookup_l _ elems' g r (VRef l) Hrows Hl) as (a & _ & Ha).
    simpl in Ha.
    eapply (snapshot_insert_outside h1 (VRef lN) l arr lN ls); [done|done| |].
    + intros ->. by rewrite Ha in H0N.
    + intros Hin. destruct (proj1 (Forall_forall _ _) Hls l Hin) as [H0l _].
      by rewrite Ha in H0l.
Qed.

Lemma result_and_argument_share_nothing_witness :
  Store.snapshot loadedStore loadedGrid = Some initialGrid /\
  (Store.gameOfLife 5 5 loadedGrid loadedStore).2 = Ok (VRef 12%positive) /\
  Store.snapshot
    (toggleInPlace (VRef 12%positive) 1 1
       (Store.gameOfLife 5 5 loadedGrid loadedStore).1).1 loadedGrid
  = Some initialGrid /\
  Store.snapshot
    (toggleInPlace loadedGrid 1 1
       (Store.gameOfLife 5 5 loadedGrid loadedStore).1).1 (VRef 12%positive)
  = Store.snapshot (Store.gameOfLife 5 5 loadedGrid loadedStore).1
      (VRef 12%positive).
Proof.
  assert (H1 : Store.snapshot loadedStore loadedGrid = Some initialGrid)
    by (vm_compute; reflexivity).
  assert (H2 : (Store.gameOfLife 5 5 loadedGrid loadedStore).2
               = Ok (VRef 12%positive)) by (vm_compute; reflexivity).
  split; [exact H1|]. split; [exact H2|].
  exact (result_and_argument_share_nothing 5 5 loadedStore loadedGrid
           (VRef 12%positive) initialGrid 1 1 H1 H2).
Defined.

(** ** The stepper is local and does not tell up from down *)

Lemma filter_agree {A} (P Q : A -> Prop) `{forall x, Decision (P x)}
      `{forall x, Decision (Q x)} (l : list A) :
  Forall (fun x => P x <-> Q x) l -> filter P l = filter Q l.
Proof.
  induction 1 as [|x l Hx _ IH]; [done|].
  rewrite !filter_cons, IH.
  destruct (decide (P x)), (decide (Q x)); tauto.
Qed.

Lemma offsets_range : Forall (fun d => -1 <= d.1 <= 1 /\ -1 <= d.2 <= 1) offsets.
Proof. change offsets with directions. repeat constructor; simpl; lia. Qed.

(** The count reads the grid at the eight offsets of the coordinate only. *)
Lemma liveNeighborCount_local (rows cols : nat) (g1 g2 : grid) (row col : Z) :
  (forall dr dc, -1 <= dr <= 1 -> -1 <= dc <= 1 ->
     cellAt g1 (row + dr, col + dc) = cellAt g2 (row + dr, col + dc)) ->
  liveNeighborCount rows cols g1 row col = liveNeighborCount rows cols g2 row col.
Proof.
  intros Hsame. unfold liveNeighborCount. do 2 f_equal.
  apply filter_agree, Forall_fmap.
  eapply Forall_impl; [exact offsets_range|].
  intros [dr dc] [Hr Hc]. simpl in *. unfold isAlive.
  by rewrite (Hsame dr dc Hr Hc).
Qed.

(** X16. The next state of a cell depends on the old grid in the cell and
    its eight neighbours only: two grids of the script's dimensions that
    agree there have the same next cell. *)
Theorem next_cell_is_local (numRows numCols : nat) (g1 g2 : grid) (r c : nat) :
  dims numRows numCols g1 -> dims numRows numCols g2 ->
  (forall dr dc, -1 <= dr <= 1 -> -1 <= dc <= 1 ->
     cellAt g1 (Z.of_nat r + dr, Z.of_nat c + dc) =
     cellAt g2 (Z.of_nat r + dr, Z.of_nat c + dc)) ->
  exists n1 n2,
    Life.gameOfLife numRows numCols g1 = Ok n1 /\
    Life.gameOfLife numRows numCols g2 = Ok n2 /\
    cellAt n1 (Z.of_nat r, Z.of_nat c) = cellAt n2 (Z.of_nat r, Z.of_nat c).
Proof.
  intros Hd1 Hd2 Hsame.
  exists (stepped numRows numCols g1), (stepped numRows numCols g2).
  split; [by apply gameOfLife_dims|]. split; [by apply gameOfLife_dims|].
  rewrite !cellAt_of_nat, !stepped_lookup.
  rewrite (liveNeighborCount_local _ _ g1 g2 _ _ Hsame).
  pose proof (Hsame 0 0 ltac:(lia) ltac:(lia)) as Hcell.
  rewrite !Z.add_0_r, !cellAt_of_nat in Hcell. by rewrite Hcell.
Qed.

Lemma next_cell_is_local_witness :
  dims 5 5 initialGrid /\ dims 5 5 initialGridFar /\
  exists n1 n2,
    Life.gameOfLife 5 5 initialGrid = Ok n1 /\
    Life.gameOfLife 5 5 initialGridFar = Ok n2 /\
    cellAt n1 (Z.of_nat 1, Z.of_nat 1) = cellAt n2 (Z.of_nat 1, Z.of_nat 1).
Proof.
  assert (H1 : dims 5 5 initialGrid) by (split; [reflexivity | repeat constructor]).
  assert (H2 : dims 5 5 initialGridFar) by (split; [reflexivity | repeat constructor]).
  split; [exact H1|]. split; [exact H2|].
  apply (next_cell_is_local 5 5 initialGrid initialGridFar 1 1 H1 H2).
  intros dr dc Hr Hc.
  assert (Hdr : dr = -1 \/ dr = 0 \/ dr = 1) by lia.
  assert (Hdc : dc = -1 \/ dc = 0 \/ dc = 1) by lia.
  destruct Hdr as [-> | [-> | ->]], Hdc as [-> | [-> | ->]]; reflexivity.
Defined.

Lemma length_filter_cons_bool {A} (f : A -> bool) (x : A) (l : list A) :
  length (filter (fun y => f y) (x :: l)) =
  ((if f x then 1 else 0) + length (filter (fun y => f y) l))%nat.
Proof. rewrite filter_cons. by destruct (f x). Qed.

Lemma inBounds_true (rows cols : nat) (p : Z * Z) :
  0 <= p.1 < Z.of_nat rows /\ 0 <= p.2 < Z.of_nat cols ->
  inBounds rows cols p = true.
Proof. intros H. unfold inBounds. lia. Qed.

Section Flip.
Variables numRows numCols : nat.
Variable g : grid.
Hypothesis Hdims : dims numRows numCols g.

Lemma reverse_dims : dims numRows numCols (reverse g).
Proof using Hdims.
  destruct Hdims as [Hlen Hrows]. split.
  - by rewrite length_reverse.
  - by apply Forall_reverse.
Qed.

(** A coordinate of the grid turned upside down is the mirrored
    coordinate of the grid. *)
Lemma alive_flip (x x' y : Z) :
  x' = Z.of_nat numRows - 1 - x ->
  inBounds numRows numCols (x, y) && isAlive (reverse g) (x, y) =
  inBounds numRows numCols (x', y) && isAlive g (x', y).
Proof using Hdims.
  intros ->. destruct Hdims as [Hlen _].
  destruct (inBounds numRows numCols (x, y)) eqn:Hb.
  - assert (0 <= x < Z.of_nat numRows /\ 0 <= y < Z.of_nat numCols) as [Hx Hy]
      by (unfold inBounds in Hb; simpl in Hb; lia).
    rewrite (inBounds_true numRows numCols (_, y)) by (simpl; lia). simpl.
    unfold isAlive, cellAt. simpl.
    destruct (Z.ltb_spec x 0); [lia|].
    destruct (Z.ltb_spec (Z.of_nat numRows - 1 - x) 0); [lia|].
    destruct (Z.ltb_spec y 0); [lia|]. simpl.
    rewrite reverse_lookup by lia.
    by replace (length g - S (Z.to_nat x))%nat
      with (Z.to_nat (Z.of_nat numRows - 1 - x)) by lia.
  - rewrite (inBounds_false numRows numCols (_, y)); [done|].
    simpl. unfold inBounds in Hb. simpl in Hb. lia.
Qed.

Lemma liveNeighborCount_flip (i c : nat) :
  (i < numRows)%nat ->
  liveNeighborCount numRows numCols (reverse g) (Z.of_nat i) (Z.of_nat c) =
  liveNeighborCount numRows numCols g (Z.of_nat (numRows - S i)) (Z.of_nat c).
Proof using Hdims.
  intros Hi. unfold liveNeighborCount. f_equal.
  change offsets with directions. unfold directions. simpl map.
  rewrite !length_filter_cons_bool, !filter_nil. simpl length.
  rewrite !(alive_flip (Z.of_nat i + -1) (Z.of_nat (numRows - S i) + 1)) by lia.
  rewrite !(alive_flip (Z.of_nat i + 0) (Z.of_nat (numRows - S i) + 0)) by lia.
  rewrite !(alive_flip (Z.of_nat i + 1) (Z.of_nat (numRows - S i) + -1)) by lia.
  repeat match goal with
         | |- context [inBounds ?a ?b ?p && isAlive ?h ?p] =>
             generalize (inBounds a b p && isAlive h p); intros ?
         end.
  repeat match goal with b : bool |- _ => destruct b end; reflexivity.
Qed.

Lemma stepped_flip :
  stepped numRows numCols (reverse g) = reverse (stepped numRows numCols g).
Proof using Hdims.
  pose proof Hdims as [Hlen _].
  apply list_eq. intros i. unfold stepped at 1. rewrite list_lookup_imap.
  destruct (decide (i < numRows)%nat) as [Hi|Hi].
  - rewrite !reverse_lookup by (unfold stepped; rewrite ?length_imap; lia).
    unfold stepped. rewrite length_imap, list_lookup_imap, Hlen.
    destruct (g !! (numRows - S i)%nat) as [arr|]; simpl; [|done]. f_equal.
    unfold steppedRow. apply imap_ext. intros c cur _. simpl.
    by rewrite liveNeighborCount_flip.
  - rewrite !lookup_ge_None_2;
      rewrite ?length_reverse; unfold stepped; rewrite ?length_imap; [done|lia|lia].
Qed.
End Flip.


Section Mirror.
Variables numRows numCols : nat.
Variable g : grid.
Hypothesis Hdims : dims numRows numCols g.

Lemma mirror_dims : dims numRows numCols (reverse <$> g).
Proof using Hdims.
  destruct Hdims as [Hlen Hrows]. split.
  - by rewrite length_fmap.
  - apply Forall_fmap. eapply Forall_impl; [exact Hrows|].
    intros arr Harr. simpl. by rewrite length_reverse.
Qed.

(** A coordinate of the grid mirrored left to right is the mirrored
    coordinate of the grid. *)
Lemma alive_mirror (x y y' : Z) :
  y' = Z.of_nat numCols - 1 - y ->
  inBounds numRows numCols (x, y) && isAlive (reverse <$> g) (x, y) =
  inBounds numRows numCols (x, y') && isAlive g (x, y').
Proof using Hdims.
  intros ->. destruct Hdims as [Hlen Hrows].
  destruct (inBounds numRows numCols (x, y)) eqn:Hb.
  - assert (0 <= x < Z.of_nat numRows /\ 0 <= y < Z.of_nat numCols) as [Hx Hy]
      by (unfold inBounds in Hb; simpl in Hb; lia).
    rewrite (inBounds_true numRows numCols (x, _)) by (simpl; lia). simpl.
    unfold isAlive, cellAt. simpl.
    destruct (Z.ltb_spec x 0); [lia|]. destruct (Z.ltb_spec y 0); [lia|].
    destruct (Z.ltb_spec (Z.of_nat numCols - 1 - y) 0); [lia|]. simpl.
    rewrite list_lookup_fmap.
    destruct (g !! Z.to_nat x) as [arr|] eqn:Harr; simpl; [|done].
    pose proof (proj1 (Forall_lookup _ _) Hrows _ arr Harr) as Hla. simpl in Hla.
    rewrite reverse_lookup by lia.
    by replace (length arr - S (Z.to_nat y))%nat
      with (Z.to_nat (Z.of_nat numCols - 1 - y)) by lia.
  - rewrite (inBounds_false numRows numCols (x, _)); [done|].
    simpl. unfold inBounds in Hb. simpl in Hb. lia.
Qed.

Lemma liveNeighborCount_mirror (i c : nat) :
  (c < numCols)%nat ->
  liveNeighborCount numRows numCols (reverse <$> g) (Z.of_nat i) (Z.of_nat c) =
  liveNeighborCount numRows numCols g (Z.of_nat i) (Z.of_nat (numCols - S c)).
Proof using Hdims.
  intros Hc. unfold liveNeighborCount. f_equal.
  change offsets with directions. unfold directions. simpl map.
  rewrite !length_filter_cons_bool, !filter_nil. simpl length.
  rewrite !(alive_mirror _ (Z.of_nat c + -1) (Z.of_nat (numCols - S c) + 1)) by lia.
  rewrite !(alive_mirror _ (Z.of_nat c + 0) (Z.of_nat (numCols - S c) + 0)) by lia.
  rewrite !(alive_mirror _ (Z.of_nat c + 1) (Z.of_nat (numCols - S c) + -1)) by lia.
  repeat match goal with
         | |- context [inBounds ?a ?b ?p && isAlive ?h ?p] =>
             generalize (inBounds a b p && isAlive h p); intros ?
         end.
  repeat match goal with b : bool |- _ => destruct b end; reflexivity.
Qed.

Lemma stepped_mirror :
  stepped numRows numCols (reverse <$> g) =
  reverse <$> stepped numRows numCols g.
Proof using Hdims.
  pose proof Hdims as [Hlen Hrows].
  apply list_eq. intros i. unfold stepped.
  rewrite list_lookup_imap, !list_lookup_fmap, list_lookup_imap.
  destruct (g !! i) as [arr|] eqn:Harr; simpl; [|done]. f_equal.
  pose proof (proj1 (Forall_lookup _ _) Hrows _ arr Harr) as Hla. simpl in Hla.
  apply list_eq. intros c. unfold steppedRow. rewrite list_lookup_imap.
  destruct (decide (c < numCols)%nat) as [Hc|Hc].
  - rewrite !reverse_lookup by (rewrite ?length_imap; lia).
    rewrite length_imap, list_lookup_imap, Hla.
    destruct (arr !! (numCols - S c)%nat) as [cur|]; simpl; [|done].
    by rewrite liveNeighborCount_mirror.
  - rewrite !lookup_ge_None_2;
      rewrite ?length_reverse, ?length_imap; [done|lia|lia].
Qed.
End Mirror.

(** X17. The stepper tells neither up from down nor left from right: on a
    grid of the script's dimensions, stepping the grid turned upside down
    gives the stepped grid turned upside down, and stepping the grid
    mirrored left to right gives the stepped grid mirrored. *)
Theorem gameOfLife_mirror_symmetric (numRows numCols : nat) (g : grid) :
  dims numRows numCols g ->
  exists n,
    Life.gameOfLife numRows numCols g = Ok n /\
    Life.gameOfLife numRows numCols (reverse g) = Ok (reverse n) /\
    Life.gameOfLife numRows numCols (reverse <$> g) = Ok (reverse <$> n).
Proof.
  intros Hdims. exists (stepped numRows numCols g).
  split; [by apply gameOfLife_dims|]. split.
  - rewrite (gameOfLife_dims _ _ _ (reverse_dims _ _ _ Hdims)).
    by rewrite stepped_flip.
  - rewrite (gameOfLife_dims _ _ _ (mirror_dims _ _ _ Hdims)).
    by rewrite stepped_mirror.
Qed.

Lemma gameOfLife_mirror_symmetric_witness :
  dims 5 5 initialGrid /\
  exists n,
    Life.gameOfLife 5 5 initialGrid = Ok n /\
    Life.gameOfLife 5 5 (reverse initialGrid) = Ok (reverse n) /\
    Life.gameOfLife 5 5 (reverse <$> initialGrid) = Ok (reverse <$> n).
Proof.
  assert (H : dims 5 5 initialGrid) by (split; [reflexivity | repeat constructor]).
  split; [exact H|].
  exact (gameOfLife_mirror_symmetric 5 5 initialGrid H).
Defined.
